(** * The to-do list of [index.tsx]

    A shallow embedding of the "To-Do List Feature" of [src/index.tsx]: the
    module-level variables [tasks] and [editingId], the browser store they are
    saved to, the rows [renderTasks] builds and the handlers it wires to them.

    Conventions.
    - A JavaScript string is a [string]: a sequence of code units below 256.
    - A task id is a [Z]: ids are readings of [Date.now()], integers far
      inside the range in which a JavaScript number is exact.
    - The module-level variables, the store and the part of the page the
      handlers read back are the fields of one [state]; every function of the
      source becomes a function on [state], and the clock's reading an
      argument of the function that reads it.
    - The page has the elements the script looks up; the store takes every
      write, and nothing else writes to it while the page is open.
    - [tasks] is a list of tasks.  [loadTasks] checks nothing of what it
      reads: when it leaves in [tasks] a value that is none, the state is
      marked [unmodelled], and what is proved of the page is proved of the
      states that are not.
    - Focus changes, the [loading] class of the add button and the [display]
      styles of the list and its loader do not reach any variable and are
      left out.
    - The image form of the script shares nothing with the to-do list: it
      has a state of its own, [Image.page]. *)

From Stdlib Require Import Ascii String DecimalString DecimalN.
From stdpp Require Import gmap strings list.

Local Open Scope Z_scope.
Local Open Scope string_scope.
Local Open Scope list_scope.

(** ** Strings *)

Module Str.

(** [WhiteSpace] and [LineTerminator] of ECMAScript below code unit 256:
    TAB, LF, VT, FF, CR, SP and NBSP. *)
Definition is_white (c : ascii) : bool :=
  let n := N_of_ascii c in
  (((9 <=? n) && (n <=? 13)) || (n =? 32) || (n =? 160))%N.

Fixpoint trimStart (s : string) : string :=
  match s with
  | EmptyString => EmptyString
  | String c r => if is_white c then trimStart r else s
  end.

Fixpoint trimEnd (s : string) : string :=
  match s with
  | EmptyString => EmptyString
  | String c r =>
      match trimEnd r with
      | EmptyString => if is_white c then EmptyString else String c EmptyString
      | r' => String c r'
      end
  end.

(** [String.prototype.trim]. *)
Definition trim (s : string) : string := trimEnd (trimStart s).

(** A string is truthy when it is not empty. *)
Definition truthy (s : string) : bool :=
  match s with EmptyString => false | String _ _ => true end.

(** Empty or made of white space only. *)
Fixpoint blank (s : string) : bool :=
  match s with
  | EmptyString => true
  | String c r => is_white c && blank r
  end.

(** The texts of [l] with [sep] between them. *)
Fixpoint join (sep : string) (l : list string) : string :=
  match l with
  | [] => ""
  | [x] => x
  | x :: r => x +:+ sep +:+ join sep r
  end.

End Str.

(** ** Data model *)

(** [interface Task]. *)
Record Task := mkTask { id : Z; text : string; completed : bool }.

#[global] Instance Task_eq_dec : EqDecision Task.
Proof. solve_decision. Defined.

(** ** The platform's JSON

    [JSON.stringify] and [JSON.parse] are the browser's, not this
    repository's.  Their values are modelled as far as a task list needs:
    [null], booleans, integers, strings, arrays and objects.  [parse] is a
    scanner followed by a push-down recogniser, both by structural recursion
    on their input, and both follow the whole of ECMAScript's JSON grammar:
    white space, the three literals, numbers with their fraction and
    exponent, strings with every escape, arrays and objects.  So a text is a
    [SyntaxError] exactly when it is malformed for that grammar.  A
    well-formed text that uses what the model has no value for (a number
    written with a fraction or an exponent, a [\u] escape of a code unit from
    256 on) is [Unsupported]: [JSON.parse] returns a value there, and the
    model does not say which.  An integer is read exactly (JavaScript rounds
    one beyond 2^53 to the nearest number it has).  The members of an object
    are kept in the order of the text, a key met again keeping its place
    (ECMAScript moves keys that are array indices to the front; a task has
    none). *)

Module JSON.

#[local] Unset Elimination Schemes.
Inductive value :=
| Null
| Bool (b : bool)
| Num (z : Z)
| Str (s : string)
| Arr (items : list value)
| Obj (members : list (string * value)).
#[local] Set Elimination Schemes.

Inductive result (A : Type) :=
| Ok (a : A)
| SyntaxError
| Unsupported.
Arguments Ok {A} a.
Arguments SyntaxError {A}.
Arguments Unsupported {A}.

Definition bind {A B} (r : result A) (k : A → result B) : result B :=
  match r with
  | Ok a => k a
  | SyntaxError => SyntaxError
  | Unsupported => Unsupported
  end.

(** *** stringify *)

Definition string_of_N (n : N) : string := NilEmpty.string_of_uint (N.to_uint n).

Definition string_of_Z (z : Z) : string :=
  match z with
  | Z0 => "0"
  | Zpos p => string_of_N (Npos p)
  | Zneg p => String "-" (string_of_N (Npos p))
  end.

(** The double quote, code unit 34. *)
Definition dquote : ascii := ascii_of_N 34.

Definition hex_digit (n : N) : ascii :=
  ascii_of_N (if (n <? 10)%N then 48 + n else 87 + n).

(** One code unit of a string as [QuoteJSONString] writes it. *)
Definition quote_char (c : ascii) : string :=
  let n := N_of_ascii c in
  if (n =? 34)%N then String "\" (String dquote "")
  else if (n =? 92)%N then "\\"
  else if (n =? 8)%N then "\b"
  else if (n =? 9)%N then "\t"
  else if (n =? 10)%N then "\n"
  else if (n =? 12)%N then "\f"
  else if (n =? 13)%N then "\r"
  else if (n <? 32)%N then
    String "\" (String "u" (String "0" (String "0"
      (String (hex_digit (n / 16)) (String (hex_digit (n mod 16)) "")))))
  else String c "".

Fixpoint quote_body (s : string) : string :=
  match s with
  | EmptyString => ""
  | String c r => quote_char c +:+ quote_body r
  end.

Definition quote (s : string) : string :=
  String dquote (quote_body s +:+ String dquote "").

Fixpoint stringify (v : value) : string :=
  match v with
  | Null => "null"
  | Bool true => "true"
  | Bool false => "false"
  | Num z => string_of_Z z
  | Str s => quote s
  | Arr items => "[" +:+ Str.join "," (map stringify items) +:+ "]"
  | Obj members =>
      "{" +:+
      Str.join ","
        (map (λ m, match m with (k, v) => quote k +:+ ":" +:+ stringify v end)
             members) +:+
      "}"
  end.

(** *** parse: the scanner *)

Inductive token :=
| TLBracket | TRBracket | TLBrace | TRBrace | TColon | TComma
| TNull | TTrue | TFalse
| TNum (z : Z)
| TStr (s : string)
| TReal     (* a number written with a fraction or an exponent *)
| TWide.    (* a string with an escaped code unit from 256 on *)

(** Where the scanner is between two code units. *)
Inductive mode :=
| Idle                                   (* between tokens *)
| Word (rest : string) (t : token)       (* in true, false or null *)
| Minus                                  (* after the sign of a number *)
| Zero                                   (* after a number's leading 0 *)
| Digits (neg : bool) (acc : N)          (* in a number's digits *)
| InStr (acc : string)                   (* in a string *)
| Esc (acc : string)                     (* after a backslash *)
| Uni (acc : string) (k : nat) (v : N)   (* after backslash u and k hex digits *)
| Point                                  (* after a number's point *)
| Frac                                   (* in the digits of a fraction *)
| Expo                                   (* after a number's e or E *)
| ExpoSign                               (* after the sign of an exponent *)
| ExpoDigits                             (* in the digits of an exponent *)
| WideStr                                (* in a string that has become wide *)
| WideEsc                                (* there, after a backslash *)
| WideUni (k : nat).                     (* there, after backslash u and k hex digits *)

Definition is_digit (c : ascii) : bool :=
  let n := N_of_ascii c in ((48 <=? n) && (n <=? 57))%N.

Definition digit_val (c : ascii) : N := N_of_ascii c - 48.

Definition hex_val (c : ascii) : option N :=
  let n := N_of_ascii c in
  if ((48 <=? n) && (n <=? 57))%N then Some (n - 48)%N
  else if ((97 <=? n) && (n <=? 102))%N then Some (n - 87)%N
  else if ((65 <=? n) && (n <=? 70))%N then Some (n - 55)%N
  else None.

Definition signed (neg : bool) (n : N) : Z :=
  if neg then - Z.of_N n else Z.of_N n.

Definition snoc (acc : string) (c : ascii) : string := acc +:+ String c "".

Definition step_idle (c : ascii) : result (mode * list token) :=
  match c with
  | " "%char | "009"%char | "010"%char | "013"%char => Ok (Idle, [])
  | "["%char => Ok (Idle, [TLBracket])
  | "]"%char => Ok (Idle, [TRBracket])
  | "{"%char => Ok (Idle, [TLBrace])
  | "}"%char => Ok (Idle, [TRBrace])
  | ":"%char => Ok (Idle, [TColon])
  | ","%char => Ok (Idle, [TComma])
  | "t"%char => Ok (Word "rue" TTrue, [])
  | "f"%char => Ok (Word "alse" TFalse, [])
  | "n"%char => Ok (Word "ull" TNull, [])
  | "-"%char => Ok (Minus, [])
  | "0"%char => Ok (Zero, [])
  | _ =>
      if (N_of_ascii c =? 34)%N then Ok (InStr "", [])
      else if is_digit c then Ok (Digits false (digit_val c), [])
      else SyntaxError
  end.

(** The digits of the integer [z] are followed by [c]: a fraction or an
    exponent begins, or the number has ended and [c] is read between
    tokens. *)
Definition end_number (z : Z) (c : ascii) : result (mode * list token) :=
  match c with
  | "."%char => Ok (Point, [])
  | "e"%char | "E"%char => Ok (Expo, [])
  | _ => bind (step_idle c) (λ '(m, ts), Ok (m, TNum z :: ts))
  end.

(** A number with a fraction or an exponent has ended at [c]. *)
Definition end_real (c : ascii) : result (mode * list token) :=
  bind (step_idle c) (λ '(m, ts), Ok (m, TReal :: ts)).

Definition step (m : mode) (c : ascii) : result (mode * list token) :=
  match m with
  | Idle => step_idle c
  | Word rest t =>
      match rest with
      | String c' rest' =>
          if bool_decide (c = c') then
            match rest' with
            | EmptyString => Ok (Idle, [t])
            | _ => Ok (Word rest' t, [])
            end
          else SyntaxError
      | EmptyString => SyntaxError
      end
  | Minus =>
      if is_digit c then
        if (digit_val c =? 0)%N then Ok (Zero, [])
        else Ok (Digits true (digit_val c), [])
      else SyntaxError
  | Zero =>
      if is_digit c then SyntaxError else end_number 0 c
  | Digits neg acc =>
      if is_digit c then Ok (Digits neg (10 * acc + digit_val c), [])
      else end_number (signed neg acc) c
  | InStr acc =>
      let n := N_of_ascii c in
      if (n =? 34)%N then Ok (Idle, [TStr acc])
      else if (n =? 92)%N then Ok (Esc acc, [])
      else if (n <? 32)%N then SyntaxError
      else Ok (InStr (snoc acc c), [])
  | Esc acc =>
      match c with
      | "\"%char | "/"%char => Ok (InStr (snoc acc c), [])
      | "b"%char => Ok (InStr (snoc acc "008"), [])
      | "f"%char => Ok (InStr (snoc acc "012"), [])
      | "n"%char => Ok (InStr (snoc acc "010"), [])
      | "r"%char => Ok (InStr (snoc acc "013"), [])
      | "t"%char => Ok (InStr (snoc acc "009"), [])
      | "u"%char => Ok (Uni acc 0 0, [])
      | _ =>
          if (N_of_ascii c =? 34)%N then Ok (InStr (snoc acc c), []) else SyntaxError
      end
  | Uni acc k v =>
      match hex_val c with
      | Some h =>
          let v' := (16 * v + h)%N in
          if bool_decide (k = 3%nat) then
            if (v' <? 256)%N then Ok (InStr (snoc acc (ascii_of_N v')), [])
            else Ok (WideStr, [])
          else Ok (Uni acc (S k) v', [])
      | None => SyntaxError
      end
  | Point =>
      if is_digit c then Ok (Frac, []) else SyntaxError
  | Frac =>
      if is_digit c then Ok (Frac, [])
      else match c with
           | "e"%char | "E"%char => Ok (Expo, [])
           | _ => end_real c
           end
  | Expo =>
      if is_digit c then Ok (ExpoDigits, [])
      else match c with
           | "+"%char | "-"%char => Ok (ExpoSign, [])
           | _ => SyntaxError
           end
  | ExpoSign =>
      if is_digit c then Ok (ExpoDigits, []) else SyntaxError
  | ExpoDigits =>
      if is_digit c then Ok (ExpoDigits, []) else end_real c
  | WideStr =>
      let n := N_of_ascii c in
      if (n =? 34)%N then Ok (Idle, [TWide])
      else if (n =? 92)%N then Ok (WideEsc, [])
      else if (n <? 32)%N then SyntaxError
      else Ok (WideStr, [])
  | WideEsc =>
      match c with
      | "\"%char | "/"%char | "b"%char | "f"%char | "n"%char | "r"%char
      | "t"%char => Ok (WideStr, [])
      | "u"%char => Ok (WideUni 0, [])
      | _ => if (N_of_ascii c =? 34)%N then Ok (WideStr, []) else SyntaxError
      end
  | WideUni k =>
      match hex_val c with
      | Some _ =>
          if bool_decide (k = 3%nat) then Ok (WideStr, [])
          else Ok (WideUni (S k), [])
      | None => SyntaxError
      end
  end.

(** The end of the text. *)
Definition finish (m : mode) : result (list token) :=
  match m with
  | Idle => Ok []
  | Zero => Ok [TNum 0]
  | Digits neg acc => Ok [TNum (signed neg acc)]
  | Frac | ExpoDigits => Ok [TReal]
  | _ => SyntaxError
  end.

(** The tokens [ts], then those of [r]. *)
Definition prepend (ts : list token) (r : result (list token))
  : result (list token) :=
  bind r (λ ts', Ok (ts ++ ts')).

Fixpoint scan (m : mode) (s : string) : result (list token) :=
  match s with
  | EmptyString => finish m
  | String c r => bind (step m c) (λ '(m', ts), prepend ts (scan m' r))
  end.

(** The scanner run over the first part of a text: the mode it stops in and
    the tokens it has read. *)
Fixpoint scan_part (m : mode) (s : string) : result (mode * list token) :=
  match s with
  | EmptyString => Ok (m, [])
  | String c r =>
      bind (step m c) (λ '(m', ts),
        bind (scan_part m' r) (λ '(m'', ts'), Ok (m'', ts ++ ts')))
  end.

(** *** parse: the recogniser *)

(** An array or an object that is still open. *)
Inductive frame :=
| InArr (items : list value)
| InObj (members : list (string * value)) (key : string).

(** What may come next. *)
Inductive expect :=
| Value            (* a value *)
| ValueOrClose     (* after [: a value or ] *)
| KeyOrClose       (* after {: a key or } *)
| Key              (* after a comma in an object *)
| AfterKey         (* a colon *)
| CommaOrClose     (* after a member or an element *)
| Finished (v : value).

(** A property set twice keeps its first place and its last value. *)
Fixpoint obj_set (k : string) (v : value) (members : list (string * value))
  : list (string * value) :=
  match members with
  | [] => [(k, v)]
  | (k', v') :: r =>
      if bool_decide (k' = k) then (k', v) :: r else (k', v') :: obj_set k v r
  end.

(** A value is complete: it goes into the innermost open array or object. *)
Definition complete (v : value) (stack : list frame) : list frame * expect :=
  match stack with
  | [] => ([], Finished v)
  | InArr items :: st => (InArr (items ++ [v]) :: st, CommaOrClose)
  | InObj members k :: st => (InObj (obj_set k v members) k :: st, CommaOrClose)
  end.

(** [TReal] and [TWide] take part in the grammar as any number and any
    string do; the value put for them is never returned (see [parse]). *)
Definition shift_value (t : token) (stack : list frame)
  : option (list frame * expect) :=
  match t with
  | TNull => Some (complete Null stack)
  | TTrue => Some (complete (Bool true) stack)
  | TFalse => Some (complete (Bool false) stack)
  | TNum z => Some (complete (Num z) stack)
  | TStr s => Some (complete (Str s) stack)
  | TReal => Some (complete (Num 0) stack)
  | TWide => Some (complete (Str "") stack)
  | TLBracket => Some (InArr [] :: stack, ValueOrClose)
  | TLBrace => Some (InObj [] "" :: stack, KeyOrClose)
  | _ => None
  end.

Definition close (t : token) (stack : list frame)
  : option (list frame * expect) :=
  match t, stack with
  | TRBracket, InArr items :: st => Some (complete (Arr items) st)
  | TRBrace, InObj members _ :: st => Some (complete (Obj members) st)
  | _, _ => None
  end.

Definition shift_key (t : token) (stack : list frame)
  : option (list frame * expect) :=
  match t, stack with
  | TStr k, InObj members _ :: st => Some (InObj members k :: st, AfterKey)
  | TWide, InObj members _ :: st => Some (InObj members "" :: st, AfterKey)
  | _, _ => None
  end.

Definition shift (stack : list frame) (e : expect) (t : token)
  : option (list frame * expect) :=
  match e with
  | Value => shift_value t stack
  | ValueOrClose =>
      match t with TRBracket => close t stack | _ => shift_value t stack end
  | KeyOrClose =>
      match t with TRBrace => close t stack | _ => shift_key t stack end
  | Key => shift_key t stack
  | AfterKey => match t with TColon => Some (stack, Value) | _ => None end
  | CommaOrClose =>
      match t, stack with
      | TComma, InArr _ :: _ => Some (stack, Value)
      | TComma, InObj _ _ :: _ => Some (stack, Key)
      | _, _ => close t stack
      end
  | Finished _ => None
  end.

Fixpoint recognise (stack : list frame) (e : expect) (ts : list token)
  : option value :=
  match ts with
  | [] => match e with Finished v => Some v | _ => None end
  | t :: r =>
      match shift stack e t with
      | Some (stack', e') => recognise stack' e' r
      | None => None
      end
  end.

(** The recogniser going on from where [complete] or [shift] left it. *)
Definition resume (p : list frame * expect) (ts : list token) : option value :=
  recognise p.1 p.2 ts.

(** What follows a number in a text [stringify] writes. *)
Definition delimiter (c : ascii) : Prop :=
  c = ","%char ∨ c = "]"%char ∨ c = "}"%char.

(** The model has a value for what the token stands for. *)
Definition modelled (t : token) : bool :=
  match t with
  | TReal | TWide => false
  | _ => true
  end.

(** [JSON.parse]: a [SyntaxError] when the scanner or the recogniser refuses
    the text; the value read when the model has one; [Unsupported] when the
    text is well-formed and holds a number or a string the model has no value
    for. *)
Definition parse (s : string) : result value :=
  bind (scan Idle s) (λ ts,
    match recognise [] Value ts with
    | Some v => if forallb modelled ts then Ok v else Unsupported
    | None => SyntaxError
    end).

End JSON.

(** ** Tasks as JSON *)

(** [JSON.stringify] writes an object's own properties in the order they were
    created: [id], [text], [completed]. *)
Definition json_of_task (t : Task) : JSON.value :=
  JSON.Obj [("id", JSON.Num (id t)); ("text", JSON.Str (text t));
            ("completed", JSON.Bool (completed t))].

Definition json_of_tasks (l : list Task) : JSON.value :=
  JSON.Arr (json_of_task <$> l).

(** The parsed value at the type [Task], when it has the shape [saveTasks]
    writes.  [loadTasks] itself checks nothing: any other value would sit in
    [tasks] against its declared type, and has no counterpart here. *)
Definition task_of_json (v : JSON.value) : option Task :=
  match v with
  | JSON.Obj [(k1, JSON.Num i); (k2, JSON.Str s); (k3, JSON.Bool b)] =>
      if bool_decide (k1 = "id" ∧ k2 = "text" ∧ k3 = "completed")
      then Some (mkTask i s b) else None
  | _ => None
  end.

Definition tasks_of_json (v : JSON.value) : option (list Task) :=
  match v with
  | JSON.Arr items => mapM task_of_json items
  | _ => None
  end.

(** The text [saveTasks] writes for a task is three fixed parts around the id
    and the text. *)
Definition task_open : string :=
  "{" +:+ JSON.quote "id" +:+ ":".

Definition task_middle : string :=
  JSON.quote "text" +:+ ":" +:+ String JSON.dquote "".

Definition task_close (completed : bool) : string :=
  "," +:+ JSON.quote "completed" +:+ ":" +:+
  (if completed then "true" else "false") +:+ "}".

(** The tokens of the text [saveTasks] writes for a task and for a list. *)
Definition tokens_of_task (t : Task) : list JSON.token :=
  [JSON.TLBrace; JSON.TStr "id"; JSON.TColon; JSON.TNum (id t); JSON.TComma;
   JSON.TStr "text"; JSON.TColon; JSON.TStr (text t); JSON.TComma;
   JSON.TStr "completed"; JSON.TColon;
   if completed t then JSON.TTrue else JSON.TFalse; JSON.TRBrace].

Fixpoint tokens_of_tasks (l : list Task) : list JSON.token :=
  match l with
  | [] => []
  | [t] => tokens_of_task t
  | t :: r => tokens_of_task t ++ JSON.TComma :: tokens_of_tasks r
  end.

(** ** State *)

(** A row of [todo-list] as [renderTasks] builds it: [data-id], the classes
    [completed] and [editing], and the text shown in the span or put in the
    edit field. *)
Record li := mkLi {
  dataset_id : Z;
  class_completed : bool;
  class_editing : bool;
  li_text : string
}.

Record state := mkState {
  tasks : list Task;                  (* let tasks *)
  editingId : option Z;               (* let editingId *)
  localStorage : gmap string string;  (* the browser's store *)
  todoList : list li;                 (* the children of todo-list *)
  todoInput : string;                 (* todo-input's value *)
  addDisabled : bool;                 (* add-todo-button's disabled *)
  timeouts : list string;             (* texts of the add callbacks not yet run *)
  initPending : bool;                 (* initializeApp's callback has not run *)
  unmodelled : bool                   (* tasks holds a value the model has not *)
}.

Definition set_tasks (l : list Task) (s : state) : state :=
  mkState l (editingId s) (localStorage s) (todoList s) (todoInput s)
          (addDisabled s) (timeouts s) (initPending s) (unmodelled s).

Definition set_editingId (e : option Z) (s : state) : state :=
  mkState (tasks s) e (localStorage s) (todoList s) (todoInput s)
          (addDisabled s) (timeouts s) (initPending s) (unmodelled s).

Definition set_localStorage (m : gmap string string) (s : state) : state :=
  mkState (tasks s) (editingId s) m (todoList s) (todoInput s)
          (addDisabled s) (timeouts s) (initPending s) (unmodelled s).

Definition set_todoList (rows : list li) (s : state) : state :=
  mkState (tasks s) (editingId s) (localStorage s) rows (todoInput s)
          (addDisabled s) (timeouts s) (initPending s) (unmodelled s).

Definition set_todoInput (v : string) (s : state) : state :=
  mkState (tasks s) (editingId s) (localStorage s) (todoList s) v
          (addDisabled s) (timeouts s) (initPending s) (unmodelled s).

Definition set_add (disabled : bool) (pending : list string) (s : state) : state :=
  mkState (tasks s) (editingId s) (localStorage s) (todoList s) (todoInput s)
          disabled pending (initPending s) (unmodelled s).

Definition set_initPending (pending : bool) (s : state) : state :=
  mkState (tasks s) (editingId s) (localStorage s) (todoList s) (todoInput s)
          (addDisabled s) (timeouts s) pending (unmodelled s).

Definition set_unmodelled (b : bool) (s : state) : state :=
  mkState (tasks s) (editingId s) (localStorage s) (todoList s) (todoInput s)
          (addDisabled s) (timeouts s) (initPending s) b.

(** The page once the script has run and [initializeApp] has scheduled its
    callback, over a store holding [store]: nothing loaded, nothing
    rendered. *)
Definition initial (store : gmap string string) : state :=
  mkState [] None store [] "" false [] true false.

(** How a call completes: normally, with the state it leaves; by throwing;
    or, [Unmodelled], normally again, but leaving in [tasks] a value the
    model has not: [loadTasks] assigns whatever [JSON.parse] returns, and
    that may be no list of tasks of the shape [saveTasks] writes, or hold a
    number or a string outside the model of JSON. *)
Inductive completion (A : Type) :=
| Normal (a : A)
| Throws (error : string)
| Unmodelled.
Arguments Normal {A} a.
Arguments Throws {A} error.
Arguments Unmodelled {A}.

(** ** The functions of the source *)

Definition saveTasks (s : state) : state :=
  set_localStorage
    (<["tasks" := JSON.stringify (json_of_tasks (tasks s))]> (localStorage s)) s.

(** [JSON.parse] throws a [SyntaxError] on a malformed text and nothing
    catches it; on every other text the assignment is made and the call
    returns. *)
Definition loadTasks (s : state) : completion state :=
  match localStorage s !! "tasks" with
  | Some storedTasks =>
      if Str.truthy storedTasks then
        match JSON.parse storedTasks with
        | JSON.Ok v =>
            match tasks_of_json v with
            | Some l => Normal (set_tasks l s)
            | None => Unmodelled
            end
        | JSON.SyntaxError => Throws "SyntaxError"
        | JSON.Unsupported => Unmodelled
        end
      else Normal s
  | None => Normal s
  end.

Definition render_row (editing : option Z) (task : Task) : li :=
  mkLi (id task) (completed task) (bool_decide (editing = Some (id task)))
       (text task).

Definition renderTasks (s : state) : state :=
  set_todoList (render_row (editingId s) <$> tasks s) s.

(** [now] is what [Date.now()] returns during the call. *)
Definition addTask (text : string) (now : Z) (s : state) : state :=
  renderTasks (saveTasks (set_tasks (tasks s ++ [mkTask now text false]) s)).

(** The arrow function [toggleTask] maps over the list. *)
Definition flip_task (i : Z) (task : Task) : Task :=
  if bool_decide (id task = i)
  then mkTask (id task) (text task) (negb (completed task))
  else task.

Definition toggleTask (i : Z) (s : state) : state :=
  renderTasks (saveTasks (set_tasks (flip_task i <$> tasks s) s)).

Definition deleteTask (i : Z) (s : state) : state :=
  renderTasks (saveTasks (set_tasks
    (filter (λ task, id task ≠ i) (tasks s)) s)).

Definition setEditing (i : Z) (s : state) : state :=
  renderTasks (set_editingId (Some i) s).

Definition cancelEditing (s : state) : state :=
  renderTasks (set_editingId None s).

(** The arrow function [updateTaskText] maps over the list. *)
Definition retext_task (i : Z) (newText : string) (task : Task) : Task :=
  if bool_decide (id task = i)
  then mkTask (id task) newText (completed task)
  else task.

Definition updateTaskText (i : Z) (newText : string) (s : state) : state :=
  renderTasks (saveTasks (set_editingId None (set_tasks
    (retext_task i newText <$> tasks s) s))).

(** [handleSave] of the row of task [i], the edit field holding [value];
    the Save button's [onclick] does the same. *)
Definition handleSave (i : Z) (value : string) (s : state) : state :=
  let newText := Str.trim value in
  if Str.truthy newText then updateTaskText i newText s else cancelEditing s.

(** The form's [submit] listener. *)
Definition submit (s : state) : state :=
  let text := Str.trim (todoInput s) in
  if Str.truthy text && negb (addDisabled s)
  then set_add true (timeouts s ++ [text]) s
  else s.

(** The callback [submit] scheduled runs, 300 ms later. *)
Definition addTimeout (now : Z) (s : state) : state :=
  match timeouts s with
  | text :: pending => set_add false pending (set_todoInput "" (addTask text now s))
  | [] => s
  end.

(** The callback [initializeApp] scheduled runs, 500 ms after the page was
    loaded: [loadTasks(); renderTasks(); ...].  Nothing catches what
    [loadTasks] throws, so then nothing is rendered. *)
Definition initTimeout (s : state) : completion state :=
  match loadTasks (set_initPending false s) with
  | Normal s' => Normal (renderTasks s')
  | Throws error => Throws error
  | Unmodelled => Unmodelled
  end.

(** ** The page's events

    What can happen to the page once the script has run: the user types in
    the form's field or submits it, a callback comes due (that of an add, or
    the one of [initializeApp]), or the user acts on a control of the [n]-th
    row.  [renderTasks] decides which controls a row has: the check box
    always; the edit field with Save and Cancel on a row of class [editing];
    the span with Edit and Delete otherwise.  Every [renderTasks] empties the
    list first, so the only controls are those of the last one. *)

Inductive event :=
| Input (value : string)                  (* typing in todo-input *)
| Submit                                  (* submitting todo-form *)
| Timeout (now : Z)                       (* the add callback runs *)
| InitTimeout                             (* initializeApp's callback runs *)
| CheckboxChange (n : nat)
| SpanClick (n : nat)
| EditClick (n : nat)
| DeleteClick (n : nat)
| KeydownEnter (n : nat) (value : string) (* the edit field holds value *)
| KeydownEscape (n : nat)
| SaveClick (n : nat) (value : string)
| CancelClick (n : nat).

(** The handler a row wired to one of its controls; [None] when the row has
    no such control. *)
Definition row_handler (e : event) (row : li) : option (state → state) :=
  match e, class_editing row with
  | CheckboxChange _, _ => Some (toggleTask (dataset_id row))
  | SpanClick _, false | EditClick _, false => Some (setEditing (dataset_id row))
  | DeleteClick _, false => Some (deleteTask (dataset_id row))
  | KeydownEnter _ value, true | SaveClick _ value, true =>
      Some (handleSave (dataset_id row) value)
  | KeydownEscape _, true | CancelClick _, true => Some cancelEditing
  | _, _ => None
  end.

Definition row_of (e : event) : option nat :=
  match e with
  | CheckboxChange n | SpanClick n | EditClick n | DeleteClick n
  | KeydownEnter n _ | KeydownEscape n | SaveClick n _ | CancelClick n => Some n
  | _ => None
  end.

(** The state after an event; [None] when the event cannot happen: the page
    has no such control, or no such callback is due.  An exception that
    leaves a callback ends it; the page goes on.  When the load callback
    leaves in [tasks] a value the model has not, the state is marked
    [unmodelled]: from then on its fields [tasks] and [todoList] are not
    those of the page, and only what is stated of states that are not
    [unmodelled] is stated of the page. *)
Definition dispatch (e : event) (s : state) : option state :=
  match e with
  | Input value => Some (set_todoInput value s)
  | Submit => Some (submit s)
  | Timeout now =>
      match timeouts s with [] => None | _ => Some (addTimeout now s) end
  | InitTimeout =>
      if initPending s then
        match initTimeout s with
        | Normal s' => Some s'
        | Throws _ => Some (set_initPending false s)
        | Unmodelled => Some (set_unmodelled true (set_initPending false s))
        end
      else None
  | _ =>
      n ← row_of e;
      row ← todoList s !! n;
      h ← row_handler e row;
      Some (h s)
  end.

Fixpoint run (es : list event) (s : state) : option state :=
  match es with
  | [] => Some s
  | e :: r => s' ← dispatch e s; run r s'
  end.

(** ** The operations of the specification, as calls of the source *)

Inductive op :=
| Add (text : string) (now : Z)
| Toggle (i : Z)
| Delete (i : Z)
| BeginEdit (i : Z)
| SaveEdit (i : Z) (newText : string)
| CancelEdit.

(** add(text), on a page with no add under way: the field holds [text], the
    form is submitted and the callback, if one was scheduled, runs. *)
Definition add (text : string) (now : Z) (s : state) : state :=
  addTimeout now (submit (set_todoInput text s)).

Definition apply (o : op) (s : state) : state :=
  match o with
  | Add text now => add text now s
  | Toggle i => toggleTask i s
  | Delete i => deleteTask i s
  | BeginEdit i => setEditing i s
  | SaveEdit i newText => handleSave i newText s
  | CancelEdit => cancelEditing s
  end.

Definition apply_all (os : list op) (s : state) : state :=
  foldl (λ s o, apply o s) s os.

(** The cursor names no task, or a task of the list. *)
Definition cursor_ok (s : state) : Prop :=
  match editingId s with
  | None => True
  | Some i => ∃ task, task ∈ tasks s ∧ id task = i
  end.

(** The rows are those of the last [renderTasks]. *)
Definition rendered (s : state) : Prop :=
  todoList s = render_row (editingId s) <$> tasks s.

(** The store holds what [saveTasks] writes for the list. *)
Definition saved (s : state) : Prop :=
  localStorage s !! "tasks" = Some (JSON.stringify (json_of_tasks (tasks s))).

(** What the events keep true of the page: the rows are those of the
    variables, the cursor is on a task of the list, and until the list is
    loaded it is either empty still or already saved. *)
Definition page_ok (s : state) : Prop :=
  rendered s ∧ cursor_ok s ∧ (initPending s = true → tasks s = [] ∨ saved s).

(** ** Reloading, and what a session keeps *)

(** The list a page opened on the store of [s] loads; [None] when its
    [loadTasks] throws, or leaves a value the model has not. *)
Definition reloaded (s : state) : option (list Task) :=
  match loadTasks (initial (localStorage s)) with
  | Normal s' => Some (tasks s')
  | _ => None
  end.

(** No text of the list is empty or white. *)
Definition texts_ok (l : list Task) : Prop :=
  ∀ task, task ∈ l → Str.blank (text task) = false.

(** The store holds nothing under [tasks], or what [saveTasks] writes for a
    list whose texts are all right. *)
Definition store_ok (m : gmap string string) : Prop :=
  m !! "tasks" = None ∨
  ∃ l, m !! "tasks" = Some (JSON.stringify (json_of_tasks l)) ∧ texts_ok l.

(** The stores the load callback reads within the model: [loadTasks] leaves
    the list alone (nothing under [tasks], or the empty string), throws (a
    malformed text), or assigns a list of tasks of the shape [saveTasks]
    writes. *)
Definition store_read (m : gmap string string) : Prop :=
  loadTasks (initial m) ≠ Unmodelled.


(** At most one add is under way, and the button is disabled exactly then. *)
Definition add_ok (s : state) : Prop :=
  (addDisabled s = false ∧ timeouts s = []) ∨
  (addDisabled s = true ∧ ∃ text, timeouts s = [text]).

(** The adds of the texts of [items], each with the reading of its clock. *)
Definition adds (items : list (string * Z)) : list op :=
  (λ item, Add item.1 item.2) <$> items.

(** What the events keep true of the texts: those of the list, those the add
    callbacks hold, and those in the store. *)
Definition texts_kept (s : state) : Prop :=
  texts_ok (tasks s) ∧ (∀ t, t ∈ timeouts s → Str.blank t = false) ∧
  store_ok (localStorage s).

(** ** The image form

    The other half of the script: the prompt field, the aspect-ratio radio
    buttons, the Generate button and the container the result is shown in.
    It shares no variable with the to-do list.  The call to the image service
    is [await]ed: [generateImage] is the function up to the call, and
    [settle] the rest of it, run when the call's result arrives.  What the
    service answers is not the script's: it is an argument of [settle]. *)

Module Image.

(** A child of [image-container]. *)
Inductive node :=
| ErrorP (message : string)       (* <p class="error">message</p> *)
| Img (src : string) (alt : string).

(** The argument of a call of [ai.models.generateImages] that has not
    settled. *)
Record request := mkRequest { prompt : string; aspect : string }.

Record page := mkPage {
  ai : bool;                      (* let ai holds a client *)
  promptInput : string;           (* prompt-input's value *)
  checkedRatio : option string;   (* the value of the checked radio button *)
  loaderDisplay : string;         (* loader.style.display *)
  disabled : bool;                (* generate-button's disabled *)
  buttonText : string;            (* generate-button's textContent *)
  imageContainer : list node;     (* the children of image-container *)
  aspectRatio : string;           (* last set on result-container's style *)
  maxWidth : string;              (* last set on result-container's style *)
  requests : list request         (* the calls that have not settled *)
}.

Definition set_ai (b : bool) (p : page) : page :=
  mkPage b (promptInput p) (checkedRatio p) (loaderDisplay p) (disabled p)
         (buttonText p) (imageContainer p) (aspectRatio p) (maxWidth p)
         (requests p).

Definition set_promptInput (v : string) (p : page) : page :=
  mkPage (ai p) v (checkedRatio p) (loaderDisplay p) (disabled p)
         (buttonText p) (imageContainer p) (aspectRatio p) (maxWidth p)
         (requests p).

Definition set_checkedRatio (r : option string) (p : page) : page :=
  mkPage (ai p) (promptInput p) r (loaderDisplay p) (disabled p)
         (buttonText p) (imageContainer p) (aspectRatio p) (maxWidth p)
         (requests p).

Definition set_imageContainer (l : list node) (p : page) : page :=
  mkPage (ai p) (promptInput p) (checkedRatio p) (loaderDisplay p) (disabled p)
         (buttonText p) l (aspectRatio p) (maxWidth p) (requests p).

Definition set_style (ratio width : string) (p : page) : page :=
  mkPage (ai p) (promptInput p) (checkedRatio p) (loaderDisplay p) (disabled p)
         (buttonText p) (imageContainer p) ratio width (requests p).

Definition set_requests (l : list request) (p : page) : page :=
  mkPage (ai p) (promptInput p) (checkedRatio p) (loaderDisplay p) (disabled p)
         (buttonText p) (imageContainer p) (aspectRatio p) (maxWidth p) l.

(** [s.split(':')]. *)
Fixpoint split_colon (s : string) : list string :=
  match s with
  | EmptyString => [""]
  | String c r =>
      if bool_decide (c = ":"%char) then "" :: split_colon r
      else match split_colon r with
           | x :: xs => String c x :: xs
           | [] => [String c ""]
           end
  end.

(** No colon in [s]. *)
Definition colon_free (s : string) : Prop :=
  Forall (λ c, c ≠ ":"%char) (list_ascii_of_string s).

(** A part of a destructured array in a template: [undefined] is written
    out when the array is too short. *)
Definition part (parts : list string) (n : nat) : string :=
  default "undefined" (parts !! n).

Definition updateResultContainerStyle (p : page) : page :=
  match checkedRatio p with
  | Some selectedRatio =>
      if Str.truthy selectedRatio then
        let parts := split_colon selectedRatio in
        set_style (part parts 0 +:+ " / " +:+ part parts 1)
          (if bool_decide (selectedRatio = "16:9") then "100%"
           else if bool_decide (selectedRatio = "9:16") then "300px"
           else "512px") p
      else p
  | None => p
  end.

Definition setLoading (isLoading : bool) (p : page) : page :=
  mkPage (ai p) (promptInput p) (checkedRatio p)
         (if isLoading then "block" else "none") isLoading
         (if isLoading then "Generating..." else "Generate")
         (imageContainer p) (aspectRatio p) (maxWidth p) (requests p).

Definition displayError (message : string) (p : page) : page :=
  set_imageContainer [ErrorP message] p.

(** [checked?.value || '1:1']. *)
Definition selectedAspectRatio (p : page) : string :=
  match checkedRatio p with
  | Some v => if Str.truthy v then v else "1:1"
  | None => "1:1"
  end.

(** [generateImage] up to its [await]: the call is made and not settled. *)
Definition generateImage (p : page) : page :=
  if negb (Str.truthy (promptInput p)) || negb (ai p) then p
  else
    let p1 := set_imageContainer [] (setLoading true p) in
    set_requests
      (requests p1 ++ [mkRequest (promptInput p1) (selectedAspectRatio p1)]) p1.

(** The rest of [generateImage], once its call has settled: with the image
    bytes of the answer, or with nothing when the call was rejected or the
    answer holds no image (the [catch] branch); [finally] in both. *)
Definition settled (outcome : option string) (p : page) : page :=
  setLoading false
    match outcome with
    | Some base64ImageBytes =>
        set_imageContainer
          (imageContainer p ++
           [Img ("data:image/jpeg;base64," +:+ base64ImageBytes) (promptInput p)])
          p
    | None => displayError "An error occurred while generating the image." p
    end.

(** The script's first statements: the client is built, or the error of its
    constructor is caught and shown. *)
Definition startup (built : bool) (p : page) : page :=
  if built then set_ai true p
  else displayError
         "Failed to initialize AI. Please check API key configuration."
         (set_ai false p).

Inductive event :=
| Loaded                                   (* DOMContentLoaded *)
| PromptInput (value : string)             (* typing in prompt-input *)
| RatioChange (value : string)             (* checking a radio button *)
| GenerateClick                            (* a click on generate-button *)
| PromptEnter                              (* Enter in prompt-input *)
| Settle (k : nat) (outcome : option string). (* the k-th call settles *)

(** The page after an event; [None] when it cannot happen: a disabled button
    is not clicked, and only a call that was made settles. *)
Definition dispatch (e : event) (p : page) : option page :=
  match e with
  | Loaded => Some (updateResultContainerStyle p)
  | PromptInput value => Some (set_promptInput value p)
  | RatioChange value =>
      Some (updateResultContainerStyle (set_checkedRatio (Some value) p))
  | GenerateClick => if disabled p then None else Some (generateImage p)
  | PromptEnter => Some (generateImage p)
  | Settle k outcome =>
      match requests p !! k with
      | Some _ => Some (settled outcome (set_requests (delete k (requests p)) p))
      | None => None
      end
  end.

Fixpoint run (es : list event) (p : page) : option page :=
  match es with
  | [] => Some p
  | e :: r => p' ← dispatch e p; run r p'
  end.

(** The button's guard: no call, or one and the button disabled. *)
Definition one_call (p : page) : Prop :=
  (disabled p = false ∧ requests p = []) ∨
  (disabled p = true ∧ ∃ r, requests p = [r]).

End Image.

(** * Properties *)

(** ** The model on small inputs *)

Example trim_examples :
  Str.trim "  Buy milk " = "Buy milk" ∧ Str.trim "   " = "" ∧ Str.trim "" = "".
Proof. done. Qed.

Example parse_examples :
  JSON.parse "[1, -20 ,true,null]"
  = JSON.Ok (JSON.Arr [JSON.Num 1; JSON.Num (-20); JSON.Bool true; JSON.Null]) ∧
  JSON.parse "[1,]" = JSON.SyntaxError ∧
  JSON.parse "01" = JSON.SyntaxError ∧
  JSON.parse "{" = JSON.SyntaxError ∧
  JSON.parse "1.5" = JSON.Unsupported.
Proof. split_and!; vm_compute; reflexivity. Qed.

(** Numbers and strings: what the grammar refuses is a [SyntaxError] whether
    or not the model has a value for what came before it. *)
Example parse_grammar_examples :
  JSON.parse "[1.]" = JSON.SyntaxError ∧
  JSON.parse "1e" = JSON.SyntaxError ∧
  JSON.parse "1e+" = JSON.SyntaxError ∧
  JSON.parse ".5" = JSON.SyntaxError ∧
  JSON.parse "[1.5,]" = JSON.SyntaxError ∧
  JSON.parse "-" = JSON.SyntaxError ∧
  JSON.parse "[-0.5e+10, 2E8 ,0.0]" = JSON.Unsupported ∧
  JSON.parse (JSON.quote "a" +:+ "x") = JSON.SyntaxError ∧
  JSON.parse (String JSON.dquote ("\u00e9\n\/" +:+ String JSON.dquote ""))
  = JSON.Ok (JSON.Str (String (ascii_of_N 233) (String (ascii_of_N 10) "/"))) ∧
  JSON.parse (String JSON.dquote ("\u0101b" +:+ String JSON.dquote ""))
  = JSON.Unsupported ∧
  JSON.parse (String JSON.dquote ("\u0101\x" +:+ String JSON.dquote ""))
  = JSON.SyntaxError ∧
  JSON.parse (String JSON.dquote ("\u01" +:+ String JSON.dquote ""))
  = JSON.SyntaxError.
Proof. split_and!; vm_compute; reflexivity. Qed.

(** [loadTasks] over a few stores: a list of the wrong shape, a value that is
    no list, a number the model has no value for, and a malformed number. *)
Example loadTasks_examples :
  loadTasks (initial {["tasks" := "[1]"]}) = Unmodelled ∧
  loadTasks (initial {["tasks" := "null"]}) = Unmodelled ∧
  loadTasks (initial {["tasks" := "1.5"]}) = Unmodelled ∧
  loadTasks (initial {["tasks" := "[1.]"]}) = Throws "SyntaxError" ∧
  loadTasks (initial {["tasks" := "[]"]})
  = Normal (initial {["tasks" := "[]"]}).
Proof. split_and!; vm_compute; reflexivity. Qed.

Example stringify_example :
  JSON.parse (JSON.stringify (json_of_tasks [mkTask 17 "a" true]))
  = JSON.Ok (json_of_tasks [mkTask 17 "a" true]).
Proof. vm_compute. reflexivity. Qed.

(** The scenario of the specification: add A, add B, toggle A, save B as B2. *)
Example scenario :
  tasks (apply_all [Add "A" 1000; Add "B" 2000; Toggle 1000;
                    BeginEdit 2000; SaveEdit 2000 "B2"] (initial ∅))
  = [mkTask 1000 "A" true; mkTask 2000 "B2" false] ∧
  editingId (apply_all [Add "A" 1000; Add "B" 2000; Toggle 1000;
                        BeginEdit 2000; SaveEdit 2000 "B2"] (initial ∅))
  = None.
Proof. split; vm_compute; reflexivity. Qed.

(** ** Trimming *)

Lemma trimStart_blank s : Str.blank s = true → Str.trimStart s = "".
Proof.
  induction s as [|c r IH]; simpl; [done|].
  intros [Hc Hr]%andb_true_iff. rewrite Hc. auto.
Qed.

Lemma trimEnd_empty s : Str.trimEnd s = "" → Str.blank s = true.
Proof.
  induction s as [|c r IH]; simpl; [done|].
  destruct (Str.trimEnd r); [|done].
  destruct (Str.is_white c); [|done]. auto.
Qed.

Lemma trimStart_empty s : Str.blank (Str.trimStart s) = true → Str.blank s = true.
Proof.
  induction s as [|c r IH]; simpl; [done|].
  destruct (Str.is_white c) eqn:Hc; simpl; [done|].
  by rewrite Hc.
Qed.

(** [trim] leaves nothing exactly of the strings that are empty or white. *)
Lemma trim_empty_iff s : Str.trim s = "" ↔ Str.blank s = true.
Proof.
  unfold Str.trim. split.
  - intros H. by apply trimStart_empty, trimEnd_empty.
  - intros H. by rewrite (trimStart_blank _ H).
Qed.

Lemma truthy_trim s : Str.truthy (Str.trim s) = negb (Str.blank s).
Proof.
  destruct (Str.blank s) eqn:Hb.
  - apply trim_empty_iff in Hb. by rewrite Hb.
  - destruct (Str.trim s) eqn:Ht; [|done].
    apply trim_empty_iff in Ht. congruence.
Qed.

(** ** What each function does to the two variables *)

Section Projections.
Context (s : state).

Lemma tasks_renderTasks : tasks (renderTasks s) = tasks s.
Proof. done. Qed.

Lemma editingId_renderTasks : editingId (renderTasks s) = editingId s.
Proof. done. Qed.

Lemma rendered_renderTasks : rendered (renderTasks s).
Proof. done. Qed.

Lemma tasks_toggleTask i : tasks (toggleTask i s) = flip_task i <$> tasks s.
Proof. done. Qed.

Lemma tasks_deleteTask i :
  tasks (deleteTask i s) = filter (λ task, id task ≠ i) (tasks s).
Proof. done. Qed.

Lemma tasks_updateTaskText i newText :
  tasks (updateTaskText i newText s) = retext_task i newText <$> tasks s.
Proof. done. Qed.

Lemma handleSave_blank i value :
  Str.blank value = true → handleSave i value s = cancelEditing s.
Proof. intros H. unfold handleSave. by rewrite truthy_trim, H. Qed.

Lemma handleSave_text i value :
  Str.blank value = false →
  handleSave i value s = updateTaskText i (Str.trim value) s.
Proof. intros H. unfold handleSave. by rewrite truthy_trim, H. Qed.

Lemma submit_blank : Str.blank (todoInput s) = true → submit s = s.
Proof. intros H. unfold submit. by rewrite truthy_trim, H. Qed.
End Projections.

(** ** Lists *)

Section Lists.
Context {A : Type} (P : A → Prop) `{!∀ x, Decision (P x)}.

Lemma filter_all (l : list A) : (∀ x, x ∈ l → P x) → filter P l = l.
Proof.
  induction l as [|x l IH]; intros Hall; [done|].
  rewrite filter_cons_True by (apply Hall; left).
  f_equal. apply IH. intros y Hy. apply Hall. by right.
Qed.

Lemma filter_one (l1 l2 : list A) (x : A) :
  ¬ P x → (∀ y, y ∈ l1 ++ l2 → P y) → filter P (l1 ++ x :: l2) = l1 ++ l2.
Proof.
  intros Hx Hall. rewrite filter_app, filter_cons_False by done.
  rewrite !filter_all; [done| |];
    intros y Hy; apply Hall, elem_of_app; auto.
Qed.
End Lists.

(** ** delete *)

(** C2. [deleteTask i] keeps exactly the tasks whose id is not [i], in their
    order and as they were: a task is in the new list iff it was in the old
    one under another id; the new list is the old one with elements left out;
    when no task has id [i] the list is unchanged; and when one task has it,
    the list loses that task and nothing else. *)
Theorem deleteTask_removes_matching (s : state) (i : Z) :
  (∀ task, task ∈ tasks (deleteTask i s) ↔ task ∈ tasks s ∧ id task ≠ i) ∧
  sublist (tasks (deleteTask i s)) (tasks s) ∧
  ((∀ task, task ∈ tasks s → id task ≠ i) → tasks (deleteTask i s) = tasks s) ∧
  (∀ before task after,
     tasks s = before ++ task :: after → id task = i →
     (∀ other, other ∈ before ++ after → id other ≠ i) →
     tasks (deleteTask i s) = before ++ after).
Proof.
  rewrite tasks_deleteTask. split_and!.
  - intros task. rewrite list_elem_of_filter. tauto.
  - apply sublist_filter.
  - apply filter_all.
  - intros before task after -> Hi Hothers. apply filter_one; [|done].
    by intros Hne.
Qed.

(** ** toggle and saveEdit *)

Lemma flip_task_twice i task : flip_task i (flip_task i task) = task.
Proof.
  unfold flip_task. destruct (bool_decide (id task = i)) eqn:Hi; simpl;
    rewrite Hi; [|done].
  destruct task; simpl. by rewrite negb_involutive.
Qed.

Lemma flip_task_spec i task :
  id (flip_task i task) = id task ∧ text (flip_task i task) = text task ∧
  (id task ≠ i → flip_task i task = task) ∧
  (id task = i → completed (flip_task i task) = negb (completed task)).
Proof. unfold flip_task. case_bool_decide; simpl; naive_solver. Qed.

Lemma retext_task_spec i newText task :
  id (retext_task i newText task) = id task ∧
  completed (retext_task i newText task) = completed task ∧
  (id task ≠ i → retext_task i newText task = task) ∧
  (id task = i → text (retext_task i newText task) = newText).
Proof. unfold retext_task. case_bool_decide; simpl; naive_solver. Qed.

(** C8. Toggling the same id twice gives back the list; one toggle keeps the
    length, the ids and the texts in their places; and a toggle of an id no
    task has leaves the list as it is. *)
Theorem toggleTask_involutive (s : state) (i : Z) :
  tasks (toggleTask i (toggleTask i s)) = tasks s ∧
  length (tasks (toggleTask i s)) = length (tasks s) ∧
  id <$> tasks (toggleTask i s) = id <$> tasks s ∧
  text <$> tasks (toggleTask i s) = text <$> tasks s ∧
  ((∀ task, task ∈ tasks s → id task ≠ i) → tasks (toggleTask i s) = tasks s).
Proof.
  rewrite !tasks_toggleTask. split_and!.
  - rewrite <- list_fmap_compose. rewrite <- (list_fmap_id (tasks s)) at 2.
    apply list_fmap_ext. intros _ task _. apply flip_task_twice.
  - apply length_fmap.
  - rewrite <- list_fmap_compose. apply list_fmap_ext.
    intros _ task _. apply flip_task_spec.
  - rewrite <- list_fmap_compose. apply list_fmap_ext.
    intros _ task _. apply flip_task_spec.
  - intros Habsent. rewrite <- (list_fmap_id (tasks s)) at 2.
    apply list_fmap_ext. intros n task Hn. apply flip_task_spec.
    eapply Habsent, list_elem_of_lookup_2, Hn.
Qed.

(** C10. [toggleTask i] and [handleSave i value] keep the length of the list,
    and at every place the task keeps its id; a task of another id is kept
    whole; [toggleTask] changes only [completed] of a task of id [i], and
    [handleSave] only its [text] (to the trimmed value, or not at all when
    that is empty). *)
Theorem toggle_and_save_frame (s : state) (i : Z) (value : string) :
  length (tasks (toggleTask i s)) = length (tasks s) ∧
  length (tasks (handleSave i value s)) = length (tasks s) ∧
  ∀ n task, tasks s !! n = Some task →
    (∃ task', tasks (toggleTask i s) !! n = Some task' ∧
       id task' = id task ∧ text task' = text task ∧
       (id task ≠ i → task' = task) ∧
       (id task = i → completed task' = negb (completed task))) ∧
    (∃ task', tasks (handleSave i value s) !! n = Some task' ∧
       id task' = id task ∧ completed task' = completed task ∧
       (id task ≠ i → task' = task) ∧
       (id task = i → Str.blank value = false → text task' = Str.trim value) ∧
       (Str.blank value = true → task' = task)).
Proof.
  split_and!.
  - rewrite tasks_toggleTask. apply length_fmap.
  - destruct (Str.blank value) eqn:Hb.
    + by rewrite handleSave_blank.
    + rewrite handleSave_text, tasks_updateTaskText by done. apply length_fmap.
  - intros n task Hn. split.
    + exists (flip_task i task). rewrite tasks_toggleTask, list_lookup_fmap, Hn.
      split; [done|]. apply flip_task_spec.
    + destruct (Str.blank value) eqn:Hb.
      * exists task. rewrite handleSave_blank by done. naive_solver.
      * exists (retext_task i (Str.trim value) task).
        rewrite handleSave_text, tasks_updateTaskText, list_lookup_fmap, Hn by done.
        split; [done|].
        destruct (retext_task_spec i (Str.trim value) task) as (?&?&?&?).
        split_and!; auto.
Qed.

(** ** The rows and their controls *)

Lemma rendered_lookup s n :
  rendered s → todoList s !! n = render_row (editingId s) <$> tasks s !! n.
Proof. intros ->. apply list_lookup_fmap. Qed.

Lemma rendered_setEditing i s : rendered (setEditing i s).
Proof. done. Qed.

(** An event on a row runs the handler the row has for it. *)
Lemma dispatch_row e n s row :
  row_of e = Some n → todoList s !! n = Some row →
  dispatch e s = (λ h, h s) <$> row_handler e row.
Proof.
  intros He Hrow.
  destruct e; simplify_eq/=; rewrite Hrow; simpl;
    by destruct (class_editing row).
Qed.

(** ** beginEdit *)



(** ** saveEdit with nothing to save *)

(** C9. With the edit field blank, saving the row being edited is cancelling
    it: the Enter key and the Save button leave the page in the state the
    Escape key and the Cancel button leave it in, cursor cleared, list and
    store as before the edit began. *)
Theorem save_blank_is_cancel
    (s : state) (n : nat) (task : Task) (value : string) :
  tasks s !! n = Some task →
  Str.blank value = true →
  handleSave (id task) value (setEditing (id task) s)
    = cancelEditing (setEditing (id task) s) ∧
  dispatch (KeydownEnter n value) (setEditing (id task) s)
    = dispatch (KeydownEscape n) (setEditing (id task) s) ∧
  dispatch (SaveClick n value) (setEditing (id task) s)
    = dispatch (CancelClick n) (setEditing (id task) s) ∧
  dispatch (KeydownEscape n) (setEditing (id task) s)
    = Some (cancelEditing (setEditing (id task) s)) ∧
  editingId (handleSave (id task) value (setEditing (id task) s)) = None ∧
  tasks (handleSave (id task) value (setEditing (id task) s)) = tasks s ∧
  localStorage (handleSave (id task) value (setEditing (id task) s))
    = localStorage s.
Proof.
  intros Hn Hb.
  assert (todoList (setEditing (id task) s) !! n
          = Some (mkLi (id task) (completed task) true (text task))) as Hrow.
  { rewrite rendered_lookup by apply rendered_setEditing. simpl. rewrite Hn.
    simpl. unfold render_row. by rewrite bool_decide_true. }
  rewrite handleSave_blank by done.
  rewrite (dispatch_row (KeydownEnter n value) n _ _ eq_refl Hrow),
    (dispatch_row (KeydownEscape n) n _ _ eq_refl Hrow),
    (dispatch_row (SaveClick n value) n _ _ eq_refl Hrow),
    (dispatch_row (CancelClick n) n _ _ eq_refl Hrow). simpl.
  by rewrite handleSave_blank by done.
Qed.

Lemma save_blank_is_cancel_witness :
  let s := addTask "Buy milk" 1700000000000 (initial ∅) in
  handleSave 1700000000000 "  " (setEditing 1700000000000 s)
    = cancelEditing (setEditing 1700000000000 s).
Proof.
  intros s.
  exact (proj1 (save_blank_is_cancel s 0 (mkTask 1700000000000 "Buy milk" false)
                  "  " eq_refl eq_refl)).
Defined.

(** ** add with nothing to add *)

(** C5. With the field empty or blank, submitting the form changes nothing:
    no callback is scheduled, and the list, the cursor and the store are
    what they were.  [submit] is a total function: nothing is thrown. *)
Theorem add_blank_is_noop (s : state) (value : string) (now : Z) :
  Str.blank value = true →
  submit (set_todoInput value s) = set_todoInput value s ∧
  tasks (submit (set_todoInput value s)) = tasks s ∧
  timeouts (submit (set_todoInput value s)) = timeouts s ∧
  (timeouts s = [] → tasks (add value now s) = tasks s ∧
                     localStorage (add value now s) = localStorage s).
Proof.
  intros Hb. unfold add. rewrite submit_blank by done.
  split_and!; [done..|].
  intros Ht. unfold addTimeout. simpl. by rewrite Ht.
Qed.

Lemma add_blank_is_noop_witness :
  tasks (submit (set_todoInput "   " (initial ∅))) = [] ∧
  tasks (submit (set_todoInput "" (initial ∅))) = [].
Proof.
  split.
  - exact (proj1 (proj2 (add_blank_is_noop (initial ∅) "   " 0 eq_refl))).
  - exact (proj1 (proj2 (add_blank_is_noop (initial ∅) "" 0 eq_refl))).
Defined.

(** ** add *)

Lemma add_text (s : state) (value : string) (now : Z) :
  Str.blank value = false → addDisabled s = false → timeouts s = [] →
  add value now s =
  set_add false [] (set_todoInput "" (addTask (Str.trim value) now
    (set_add true [Str.trim value] (set_todoInput value s)))).
Proof.
  intros Hb Hd Ht. unfold add, submit. simpl.
  rewrite truthy_trim, Hb, Hd, Ht. simpl. done.
Qed.

(** C6, as the code has it.  An add of a text that is not blank, with no
    other add under way, appends one task: its text the trimmed text, not
    completed, its id the clock's reading.  The ids of the new list are
    pairwise distinct exactly when those of the old list were and the reading
    is not among them; a reading above all of them is such a one. *)
Theorem add_appends_task (s : state) (value : string) (now : Z) :
  Str.blank value = false → addDisabled s = false → timeouts s = [] →
  tasks (add value now s) = tasks s ++ [mkTask now (Str.trim value) false] ∧
  (NoDup (id <$> tasks (add value now s))
     ↔ NoDup (id <$> tasks s) ∧ now ∉ id <$> tasks s) ∧
  (NoDup (id <$> tasks s) → (∀ task, task ∈ tasks s → id task < now) →
     NoDup (id <$> tasks (add value now s))).
Proof.
  intros Hb Hd Ht. rewrite add_text by done. simpl.
  assert (NoDup (id <$> tasks s ++ [mkTask now (Str.trim value) false])
          ↔ NoDup (id <$> tasks s) ∧ now ∉ id <$> tasks s) as Hiff.
  { rewrite fmap_app. simpl. rewrite NoDup_app.
    split.
    - intros (Hnd & Hdisj & _). split; [done|].
      intros Hin. apply (Hdisj now Hin). by left.
    - intros [Hnd Hnew]. split_and!; [done| |apply NoDup_singleton].
      by intros x Hx ->%list_elem_of_singleton. }
  split_and!; [done|done|].
  intros Hnd Hlt. apply Hiff. split; [done|].
  intros (task & -> & Hin)%list_elem_of_fmap. specialize (Hlt _ Hin). lia.
Qed.

Lemma add_appends_task_witness :
  tasks (add " Buy milk " 1700000000000 (initial ∅))
  = [mkTask 1700000000000 "Buy milk" false].
Proof.
  exact (proj1 (add_appends_task (initial ∅) " Buy milk " 1700000000000
                  eq_refl eq_refl eq_refl)).
Defined.

(** C6, as the claim has it, fails: two adds during which the clock reads the
    same give two tasks of one id, by the operations and by the page's own
    events alike. *)
Lemma adds_at_one_reading_share_an_id :
  tasks (apply_all [Add "a" 1700000000000; Add "b" 1700000000000] (initial ∅))
  = [mkTask 1700000000000 "a" false; mkTask 1700000000000 "b" false] ∧
  tasks <$> run [Input "a"; Submit; Timeout 1700000000000;
                 Input "b"; Submit; Timeout 1700000000000] (initial ∅)
  = Some [mkTask 1700000000000 "a" false; mkTask 1700000000000 "b" false] ∧
  ¬ NoDup (id <$> tasks (apply_all [Add "a" 1700000000000;
                                    Add "b" 1700000000000] (initial ∅))).
Proof.
  split_and!; [done..|].
  intros Hnd. apply NoDup_cons in Hnd as [Hnotin _]. apply Hnotin. by left.
Qed.

(** ** The text [saveTasks] writes, read back *)

Section Scanning.
Import JSON.

Lemma sapp_cons c s r : String c s +:+ r = String c (s +:+ r).
Proof. done. Qed.

Lemma sapp_nil_l r : "" +:+ r = r.
Proof. done. Qed.

Lemma sapp_nil_r s : s +:+ "" = s.
Proof. induction s as [|c s IH]; [done|]. rewrite sapp_cons. by f_equal. Qed.

Lemma sapp_assoc s1 s2 s3 : (s1 +:+ s2) +:+ s3 = s1 +:+ (s2 +:+ s3).
Proof.
  induction s1 as [|c s1 IH]; [done|]. rewrite !sapp_cons. by f_equal.
Qed.

Lemma scan_cons m c r :
  scan m (String c r) = bind (step m c) (λ '(m', ts), prepend ts (scan m' r)).
Proof. done. Qed.

Lemma prepend_nil r : prepend [] r = r.
Proof. by destruct r. Qed.

Lemma prepend_prepend ts1 ts2 r :
  prepend ts1 (prepend ts2 r) = prepend (ts1 ++ ts2) r.
Proof. destruct r; simpl; [|done..]. by rewrite (assoc_L (++)). Qed.

(** *** Numbers *)

(** Digits after the first go into the accumulator as [Pos.of_uint_acc]
    has them. *)
Lemma scan_digits u a neg rest :
  scan (Digits neg (Npos a)) (NilEmpty.string_of_uint u +:+ rest)
  = scan (Digits neg (Npos (Pos.of_uint_acc u a))) rest.
Proof.
  revert a. induction u; intros a; simpl NilEmpty.string_of_uint;
    [done|rewrite sapp_cons, scan_cons; simpl; rewrite prepend_nil, <- IHu;
          apply (f_equal (λ n, scan (Digits neg n) _));
          unfold digit_val; simpl; lia..].
Qed.

Lemma nzhead_not_D0 u v : Decimal.nzhead u ≠ Decimal.D0 v.
Proof. induction u; simpl; done. Qed.

(** The decimal writing of a positive number begins with a digit that is
    not 0. *)
Lemma to_uint_not_D0 p v : Pos.to_uint p ≠ Decimal.D0 v.
Proof.
  intros Hp.
  pose proof (DecimalPos.Unsigned.to_of (Pos.to_uint p)) as Hn.
  rewrite DecimalPos.Unsigned.of_to in Hn. change (N.to_uint (Npos p))
    with (Pos.to_uint p) in Hn.
  unfold Decimal.unorm in Hn. rewrite Hp in Hn at 1.
  destruct (Decimal.nzhead (Pos.to_uint p)) eqn:Hz;
    try (by eapply nzhead_not_D0; rewrite Hz, <- Hn).
  apply (DecimalPos.Unsigned.to_uint_nonzero p). by rewrite Hp, Hn.
Qed.

(** The digits of a positive number, read from the start of a number
    ([Idle]) or after its sign ([Minus]). *)
Lemma scan_pos p (neg : bool) rest :
  scan (if neg then Minus else Idle) (string_of_N (Npos p) +:+ rest)
  = scan (Digits neg (Npos p)) rest.
Proof.
  unfold string_of_N. change (N.to_uint (Npos p)) with (Pos.to_uint p).
  pose proof (DecimalPos.Unsigned.of_to p) as Hp.
  pose proof (to_uint_not_D0 p) as H0.
  pose proof (DecimalPos.Unsigned.to_uint_nonnil p) as Hnil.
  destruct (Pos.to_uint p) as [|u|u|u|u|u|u|u|u|u|u];
    [done|by destruct (H0 u)|
     simpl in Hp; injection Hp as <-; simpl NilEmpty.string_of_uint;
     rewrite sapp_cons, scan_cons; destruct neg; simpl;
     rewrite prepend_nil; apply scan_digits..].
Qed.

Lemma scan_number_end neg acc c rest :
  delimiter c →
  scan (Digits neg acc) (String c rest)
  = prepend [TNum (signed neg acc)] (scan Idle (String c rest)).
Proof.
  intros [-> | [-> | ->]]; rewrite !scan_cons; simpl;
    by rewrite prepend_prepend.
Qed.

Lemma scan_Z z c rest :
  delimiter c →
  scan Idle (string_of_Z z +:+ String c rest)
  = prepend [TNum z] (scan Idle (String c rest)).
Proof.
  intros Hc. destruct z as [|p|p]; simpl string_of_Z.
  - destruct Hc as [-> | [-> | ->]]; rewrite !sapp_cons, !scan_cons; simpl;
      by rewrite prepend_nil, prepend_prepend.
  - rewrite (scan_pos p false). by apply scan_number_end.
  - rewrite sapp_cons, scan_cons. simpl. rewrite prepend_nil.
    rewrite (scan_pos p true). by apply scan_number_end.
Qed.

(** *** Strings *)

Lemma snoc_app acc c s : snoc acc c +:+ s = acc +:+ String c s.
Proof. unfold snoc. by rewrite sapp_assoc. Qed.

(** A code unit as [quote_char] writes it is read back as itself. *)
Lemma scan_quote_char acc c rest :
  scan (InStr acc) (quote_char c +:+ rest) = scan (InStr (snoc acc c)) rest.
Proof.
  destruct c as [[] [] [] [] [] [] [] []]; vm_compute quote_char;
    rewrite ?sapp_cons, ?scan_cons; simpl; by rewrite ?prepend_nil.
Qed.

Lemma scan_quote_body acc s rest :
  scan (InStr acc) (quote_body s +:+ String dquote rest)
  = prepend [TStr (acc +:+ s)] (scan Idle rest).
Proof.
  revert acc. induction s as [|c s IH]; intros acc.
  - simpl quote_body. rewrite sapp_nil_l, scan_cons. simpl.
    by rewrite sapp_nil_r.
  - simpl quote_body. rewrite sapp_assoc, scan_quote_char, IH.
    by rewrite snoc_app.
Qed.

(** *** Tasks *)

Lemma scan_app m s r :
  scan m (s +:+ r)
  = bind (scan_part m s) (λ '(m', ts), prepend ts (scan m' r)).
Proof.
  revert m. induction s as [|c s IH]; intros m.
  - rewrite sapp_nil_l. simpl. by rewrite prepend_nil.
  - rewrite sapp_cons, scan_cons. simpl scan_part.
    destruct (step m c) as [[m' ts]| |]; simpl; [|done..].
    rewrite IH. destruct (scan_part m' s) as [[m'' ts']| |]; simpl; [|done..].
    by rewrite prepend_prepend.
Qed.

Lemma stringify_task t rest :
  stringify (json_of_task t) +:+ rest
  = task_open +:+ string_of_Z (id t) +:+
    String "," (task_middle +:+ quote_body (text t) +:+
                String dquote (task_close (completed t) +:+ rest)).
Proof.
  unfold json_of_task, task_open, task_middle, task_close.
  cbn [stringify map Str.join].
  change (quote (text t))
    with (String dquote (quote_body (text t) +:+ String dquote "")).
  rewrite !sapp_assoc, !sapp_cons, !sapp_assoc. by destruct (completed t).
Qed.

Lemma scan_task_open :
  scan_part Idle task_open = Ok (Idle, [TLBrace; TStr "id"; TColon]).
Proof. vm_compute. reflexivity. Qed.

Lemma scan_task_middle :
  scan_part Idle (String "," task_middle)
  = Ok (InStr "", [TComma; TStr "text"; TColon]).
Proof. vm_compute. reflexivity. Qed.

Lemma scan_task_close b :
  scan_part Idle (task_close b)
  = Ok (Idle, [TComma; TStr "completed"; TColon;
               if b then TTrue else TFalse; TRBrace]).
Proof. destruct b; vm_compute; reflexivity. Qed.

Lemma scan_task t rest :
  scan Idle (stringify (json_of_task t) +:+ rest)
  = prepend (tokens_of_task t) (scan Idle rest).
Proof.
  rewrite stringify_task.
  rewrite scan_app, scan_task_open. simpl bind.
  rewrite (scan_Z (id t) "," _ (or_introl eq_refl)).
  rewrite <- (sapp_cons "," task_middle), scan_app, scan_task_middle.
  simpl bind.
  rewrite (scan_quote_body "" (text t)), sapp_nil_l.
  rewrite scan_app, scan_task_close. simpl bind.
  by rewrite !prepend_prepend.
Qed.

Lemma scan_comma rest :
  scan Idle (String "," rest) = prepend [TComma] (scan Idle rest).
Proof. done. Qed.

Lemma scan_bracket rest :
  scan Idle (String "[" rest) = prepend [TLBracket] (scan Idle rest).
Proof. done. Qed.

Lemma scan_tasks l rest :
  scan Idle (Str.join "," (map stringify (json_of_task <$> l)) +:+ rest)
  = prepend (tokens_of_tasks l) (scan Idle rest).
Proof.
  induction l as [|t [|t' l] IH].
  - simpl. by rewrite sapp_nil_l, prepend_nil.
  - apply scan_task.
  - change (Str.join "," (map stringify (json_of_task <$> t :: t' :: l)))
      with (stringify (json_of_task t) +:+ "," +:+
            Str.join "," (map stringify (json_of_task <$> t' :: l))).
    rewrite !sapp_assoc, scan_task, sapp_cons, sapp_nil_l, scan_comma.
    rewrite IH.
    change (tokens_of_tasks (t :: t' :: l))
      with (tokens_of_task t ++ TComma :: tokens_of_tasks (t' :: l)).
    by rewrite !prepend_prepend.
Qed.

Lemma scan_stringify_tasks l :
  scan Idle (stringify (json_of_tasks l))
  = Ok (TLBracket :: tokens_of_tasks l ++ [TRBracket]).
Proof.
  unfold json_of_tasks. cbn [stringify].
  rewrite sapp_cons, sapp_nil_l, scan_bracket, scan_tasks.
  by rewrite prepend_prepend.
Qed.

(** *** The recogniser on these tokens *)

Lemma recognise_task stack e t rest :
  e = Value ∨ e = ValueOrClose →
  recognise stack e (tokens_of_task t ++ rest)
  = resume (complete (json_of_task t) stack) rest.
Proof.
  unfold tokens_of_task, json_of_task.
  intros [-> | ->]; destruct (completed t);
    by destruct stack as [|[items|members k] stack].
Qed.

Lemma recognise_tasks items stack e l rest :
  l ≠ [] → e = Value ∨ e = ValueOrClose →
  recognise (InArr items :: stack) e (tokens_of_tasks l ++ TRBracket :: rest)
  = resume (complete (Arr (items ++ (json_of_task <$> l))) stack) rest.
Proof.
  revert items e. induction l as [|t [|t' l] IH]; intros items e Hl He; [done|..].
  - simpl tokens_of_tasks. rewrite recognise_task by done.
    by destruct stack as [|[] ?].
  - change (tokens_of_tasks (t :: t' :: l))
      with (tokens_of_task t ++ TComma :: tokens_of_tasks (t' :: l)).
    rewrite <- (assoc_L (++)), recognise_task by done.
    change (resume (complete (json_of_task t) (InArr items :: stack))
              (?ts ++ ?r))
      with (recognise (InArr (items ++ [json_of_task t]) :: stack) Value
              (tokens_of_tasks (t' :: l) ++ r)).
    rewrite IH by auto. by rewrite <- (assoc_L (++)).
Qed.

(** The model has a value for each of these tokens. *)
Lemma modelled_tokens_of_tasks l : forallb modelled (tokens_of_tasks l) = true.
Proof.
  induction l as [|t [|t' l] IH]; [done|by destruct t as [i x []]|].
  change (tokens_of_tasks (t :: t' :: l))
    with (tokens_of_task t ++ TComma :: tokens_of_tasks (t' :: l)).
  rewrite forallb_app. cbn [forallb modelled]. rewrite IH.
  by destruct t as [i x []].
Qed.

(** What [saveTasks] writes for a list, [JSON.parse] reads as that list. *)
Lemma parse_stringify_tasks l :
  parse (stringify (json_of_tasks l)) = Ok (json_of_tasks l).
Proof.
  unfold parse. rewrite scan_stringify_tasks. cbn [bind].
  assert (forallb modelled (TLBracket :: tokens_of_tasks l ++ [TRBracket]) = true)
    as ->.
  { cbn [forallb modelled]. by rewrite forallb_app, modelled_tokens_of_tasks. }
  destruct l as [|t l]; [done|].
  change (recognise [] Value (TLBracket :: ?ts))
    with (recognise [InArr []] ValueOrClose ts).
  by rewrite recognise_tasks by auto.
Qed.

Lemma task_of_json_of_task t : task_of_json (json_of_task t) = Some t.
Proof. by destruct t. Qed.

Lemma tasks_of_json_of_tasks l : tasks_of_json (json_of_tasks l) = Some l.
Proof.
  unfold tasks_of_json, json_of_tasks.
  apply mapM_fmap_Some, task_of_json_of_task.
Qed.
End Scanning.

(** ** load *)

Lemma truthy_stringify_tasks l :
  Str.truthy (JSON.stringify (json_of_tasks l)) = true.
Proof. done. Qed.

(** A store holding what [saveTasks] wrote for [l] loads as [l]. *)
Lemma loadTasks_stored s l :
  localStorage s !! "tasks" = Some (JSON.stringify (json_of_tasks l)) →
  loadTasks s = Normal (set_tasks l s).
Proof.
  intros Hs. unfold loadTasks.
  by rewrite Hs, truthy_stringify_tasks, parse_stringify_tasks,
    tasks_of_json_of_tasks.
Qed.




(** ** add, save, load *)

(** C7. From the page as it starts, whatever the store held, add("Buy milk")
    leaves one task, not completed, with that text; and a page that starts
    on the store this one leaves loads exactly that list, by [loadTasks] and
    so by the callback of [initializeApp]. *)
Theorem add_then_load_round_trips (store : gmap string string) (now : Z) :
  tasks (add "Buy milk" now (initial store))
  = [mkTask now "Buy milk" false] ∧
  loadTasks (initial (localStorage (add "Buy milk" now (initial store))))
  = Normal (set_tasks [mkTask now "Buy milk" false]
              (initial (localStorage (add "Buy milk" now (initial store))))) ∧
  tasks <$> dispatch InitTimeout
              (initial (localStorage (add "Buy milk" now (initial store))))
  = Some [mkTask now "Buy milk" false].
Proof.
  set (s1 := add "Buy milk" now (initial store)).
  assert (tasks s1 = [mkTask now "Buy milk" false]) as Ht.
  { unfold s1. by rewrite add_text. }
  assert (localStorage s1 !! "tasks"
          = Some (JSON.stringify (json_of_tasks [mkTask now "Buy milk" false])))
    as Hs.
  { unfold s1. rewrite add_text by done. simpl. by rewrite lookup_insert_eq. }
  split_and!; [done|by apply loadTasks_stored|].
  unfold dispatch, initTimeout. cbn [initPending initial].
  by rewrite (loadTasks_stored (set_initPending false (initial (localStorage s1)))
                _ Hs).
Qed.

(** ** The cursor *)

Lemma has_id_fmap (f : Task → Task) (l : list Task) (i : Z) :
  (∀ task, id (f task) = id task) →
  (∃ task, task ∈ l ∧ id task = i) → ∃ task, task ∈ f <$> l ∧ id task = i.
Proof.
  intros Hf (task & Hin & Hi). exists (f task). split.
  - by apply list_elem_of_fmap_2.
  - by rewrite Hf.
Qed.

Lemma cursor_ok_toggleTask i s : cursor_ok s → cursor_ok (toggleTask i s).
Proof.
  unfold cursor_ok. simpl. destruct (editingId s); [|done].
  apply has_id_fmap. intros task. apply flip_task_spec.
Qed.

(** Deleting any task but the one being edited keeps the cursor's task. *)
Lemma cursor_ok_deleteTask i s :
  editingId s ≠ Some i → cursor_ok s → cursor_ok (deleteTask i s).
Proof.
  unfold cursor_ok. simpl. destruct (editingId s) as [j|]; [|done].
  intros Hne (task & Hin & Hj). exists task. split; [|done].
  apply list_elem_of_filter. split; [|done]. congruence.
Qed.

Lemma cursor_ok_setEditing i s :
  (∃ task, task ∈ tasks s ∧ id task = i) → cursor_ok (setEditing i s).
Proof. done. Qed.

Lemma cursor_ok_addTask text0 now s :
  cursor_ok s → cursor_ok (addTask text0 now s).
Proof.
  unfold cursor_ok. simpl. destruct (editingId s); [|done].
  intros (task & Hin & Hi). exists task. split; [|done].
  apply elem_of_app. by left.
Qed.

Lemma cursor_ok_handleSave i value s : cursor_ok (handleSave i value s).
Proof. unfold handleSave. by destruct (Str.truthy _). Qed.

Lemma cursor_ok_nil s : tasks s = [] → cursor_ok s → editingId s = None.
Proof.
  unfold cursor_ok. intros Hnil. destruct (editingId s); [|done].
  intros (task & Hin & _). rewrite Hnil in Hin. by apply elem_of_nil in Hin.
Qed.

(** Every function that changes the list saves it. *)
Lemma saved_saveTasks s : saved (renderTasks (saveTasks s)).
Proof. unfold saved. simpl. by rewrite lookup_insert_eq. Qed.

Lemma loadTasks_keeps s s' :
  loadTasks s = Normal s' →
  editingId s' = editingId s ∧ initPending s' = initPending s.
Proof.
  unfold loadTasks. destruct (localStorage s !! "tasks") as [stored|]; [|naive_solver].
  destruct (Str.truthy stored); [|naive_solver].
  destruct (JSON.parse stored) as [v| |]; [|done..].
  destruct (tasks_of_json v); naive_solver.
Qed.

(** [initializeApp]'s callback keeps the page in order: a list that is
    already saved is read back as it is, and an empty one has no cursor. *)
Lemma initTimeout_keeps_page_ok s s' :
  page_ok s → initPending s = true → initTimeout s = Normal s' → page_ok s'.
Proof.
  intros (Hr & Hc & Hs) Hpend Hi. unfold initTimeout in Hi.
  destruct (loadTasks (set_initPending false s)) as [s1| |] eqn:Hl; simplify_eq.
  destruct (loadTasks_keeps _ _ Hl) as [He Hp]. simpl in He, Hp.
  split_and!; [done| |simpl; congruence].
  destruct (Hs Hpend) as [Hnil|Hsaved].
  - unfold cursor_ok. simpl. by rewrite He, (cursor_ok_nil s).
  - rewrite (loadTasks_stored (set_initPending false s) (tasks s) Hsaved) in Hl.
    by simplify_eq.
Qed.

(** One event keeps the page in order. *)
Lemma dispatch_keeps_page_ok e s s' :
  page_ok s → dispatch e s = Some s' → page_ok s'.
Proof.
  intros Hok Hd. pose proof Hok as (Hr & Hc & Hs).
  destruct (row_of e) as [n|] eqn:He.
  - (* a control of the n-th row *)
    assert (∃ row, todoList s !! n = Some row) as [row Hrow].
    { destruct (todoList s !! n) eqn:Hrow; [eauto|].
      destruct e; simplify_eq/=; by rewrite Hrow in Hd. }
    rewrite (dispatch_row e n s row He Hrow) in Hd.
    rewrite rendered_lookup in Hrow by done.
    destruct (tasks s !! n) as [task|] eqn:Hn; simplify_eq/=.
    assert (task ∈ tasks s) as Hin by by eapply list_elem_of_lookup_2.
    assert (∀ i v, page_ok (handleSave i v s)) as Hsave.
    { intros i v. unfold handleSave. destruct (Str.truthy _).
      - split_and!; [done..|]. intros _. right. apply saved_saveTasks.
      - by split_and!. }
    destruct e; simplify_eq/=; try case_bool_decide; simplify_eq/=; try done.
    + split_and!; [done|by apply cursor_ok_toggleTask|].
      intros _. right. apply saved_saveTasks.
    + split_and!; [done|apply cursor_ok_setEditing; eauto|done].
    + split_and!; [done|apply cursor_ok_setEditing; eauto|done].
    + split_and!; [done|by apply cursor_ok_deleteTask|].
      intros _. right. apply saved_saveTasks.
  - destruct e; simplify_eq/=.
    + done.
    + unfold submit. by destruct (_ && _).
    + unfold addTimeout in *. destruct (timeouts s); simplify_eq/=.
      split_and!; [done|by apply (cursor_ok_addTask _ _ s)|].
      intros _. right. apply (saved_saveTasks (set_tasks _ s)).
    + destruct (initPending s) eqn:Hpend; [|done].
      destruct (initTimeout s) as [s1| |] eqn:Hi; simplify_eq/=.
      * by eapply initTimeout_keeps_page_ok.
      * by split_and!.
      * by split_and!.
Qed.

Lemma run_app es1 es2 s : run (es1 ++ es2) s = run es1 s ≫= run es2.
Proof.
  revert s. induction es1 as [|e es1 IH]; intros s; simpl; [done|].
  destruct (dispatch e s); simpl; [apply IH|done].
Qed.

Lemma run_keeps_page_ok es s s' : page_ok s → run es s = Some s' → page_ok s'.
Proof.
  revert s. induction es as [|e es IH]; intros s Hok Hrun; simplify_eq/=; [done|].
  destruct (dispatch e s) as [s1|] eqn:Hd; simplify_eq/=.
  eapply IH; [|done]. by eapply dispatch_keeps_page_ok.
Qed.

Lemma page_ok_initial store : page_ok (initial store).
Proof. split_and!; [done..|]. by left. Qed.

(** C1, as the code has it.  From the page as it starts, over any store,
    after each of the events of every sequence the page can receive (the
    state [s1] after any first part [es1] of it, and the state at its end),
    the cursor is none or the id of a task of the list.  The handlers a row
    is given are what keeps it so: [setEditing] is reached only with the id
    of a row's task, and [deleteTask] only from a row that is not being
    edited. *)
Theorem cursor_ok_after_events
    (store : gmap string string) (es1 es2 : list event) (s' : state) :
  run (es1 ++ es2) (initial store) = Some s' →
  ∃ s1, run es1 (initial store) = Some s1 ∧ run es2 s1 = Some s' ∧
        cursor_ok s1 ∧ cursor_ok s'.
Proof.
  rewrite run_app. intros Hrun.
  destruct (run es1 (initial store)) as [s1|] eqn:Hrun1; simplify_eq/=.
  exists s1. split_and!; [done..| |].
  - eapply (run_keeps_page_ok es1); [apply page_ok_initial|done].
  - eapply (run_keeps_page_ok es2); [|done].
    eapply (run_keeps_page_ok es1); [apply page_ok_initial|done].
Qed.

Lemma cursor_ok_after_events_witness :
  tasks <$> run [Input " a "; Submit; Timeout 7; EditClick 0; InitTimeout;
                 CheckboxChange 0] (initial ∅) = Some [mkTask 7 "a" true] ∧
  editingId <$> run [Input " a "; Submit; Timeout 7; EditClick 0; InitTimeout;
                     CheckboxChange 0] (initial ∅) = Some (Some 7) ∧
  ∃ s1, run [Input " a "; Submit; Timeout 7; EditClick 0; InitTimeout;
             CheckboxChange 0] (initial ∅) = Some s1 ∧ cursor_ok s1.
Proof.
  set (es1 := [Input " a "; Submit; Timeout 7; EditClick 0; InitTimeout;
               CheckboxChange 0]).
  set (es2 := [Input "b"; Submit; Timeout 9; DeleteClick 1]).
  split; [vm_compute; reflexivity|]. split; [vm_compute; reflexivity|].
  assert (run (es1 ++ es2) (initial ∅)
          = Some (default (initial ∅) (run (es1 ++ es2) (initial ∅))))
    as Hrun by (vm_compute; reflexivity).
  destruct (cursor_ok_after_events ∅ es1 es2 _ Hrun) as (s1 & Hrun1 & _ & Hc & _).
  by exists s1.
Defined.

(** C1, as the claim has it, fails: add a task, begin to edit it and delete
    it by the operations themselves; the list is empty and the cursor still
    holds the id. *)
Lemma delete_of_edited_task_keeps_cursor :
  tasks (apply_all [Add "a" 7; BeginEdit 7; Delete 7] (initial ∅)) = [] ∧
  editingId (apply_all [Add "a" 7; BeginEdit 7; Delete 7] (initial ∅)) = Some 7 ∧
  ¬ cursor_ok (apply_all [Add "a" 7; BeginEdit 7; Delete 7] (initial ∅)).
Proof.
  split_and!; [reflexivity..|].
  intros (task & Hin & _). vm_compute in Hin. by apply elem_of_nil in Hin.
Qed.

(** * More of the to-do list *)

(** ** Saving and reloading *)

(** X1. Whatever the list, a page opened on the store [saveTasks] leaves
    loads that list: [loadTasks] completes with it, and the callback of
    [initializeApp] renders one row for each task, none of them in edit
    mode. *)
Theorem save_then_reload (s : state) :
  reloaded (saveTasks s) = Some (tasks s) ∧
  ∃ s', initTimeout (initial (localStorage (saveTasks s))) = Normal s' ∧
        tasks s' = tasks s ∧ editingId s' = None ∧
        todoList s' = render_row None <$> tasks s.
Proof.
  assert (localStorage (saveTasks s) !! "tasks"
          = Some (JSON.stringify (json_of_tasks (tasks s)))) as Hs.
  { simpl. by rewrite lookup_insert_eq. }
  split.
  - unfold reloaded.
    by rewrite (loadTasks_stored (initial (localStorage (saveTasks s))) _ Hs).
  - unfold initTimeout.
    rewrite (loadTasks_stored
               (set_initPending false (initial (localStorage (saveTasks s))))
               _ Hs).
    eauto.
Qed.

Lemma reloaded_saved s : saved s → reloaded s = Some (tasks s).
Proof.
  intros Hs. unfold reloaded.
  by rewrite (loadTasks_stored (initial (localStorage s)) (tasks s) Hs).
Qed.

(** X2. Each function that changes the list leaves a store from which a new
    page loads the changed list; the two functions that move the cursor
    leave the store as it is. *)
Theorem changes_are_saved (s : state) :
  (∀ text0 now,
     reloaded (addTask text0 now s) = Some (tasks s ++ [mkTask now text0 false])) ∧
  (∀ i, reloaded (toggleTask i s) = Some (flip_task i <$> tasks s)) ∧
  (∀ i, reloaded (deleteTask i s)
        = Some (filter (λ task, id task ≠ i) (tasks s))) ∧
  (∀ i newText,
     reloaded (updateTaskText i newText s)
     = Some (retext_task i newText <$> tasks s)) ∧
  (∀ i, localStorage (setEditing i s) = localStorage s) ∧
  localStorage (cancelEditing s) = localStorage s.
Proof.
  split_and!; [intros ??|intros ?|intros ?|intros ??|done..];
    by rewrite reloaded_saved by apply saved_saveTasks.
Qed.

(** ** One add at a time *)

Lemma row_handler_keeps_add e row h s :
  row_handler e row = Some h →
  addDisabled (h s) = addDisabled s ∧ timeouts (h s) = timeouts s.
Proof.
  unfold row_handler. intros Hh.
  destruct e, (class_editing row); simplify_eq; try done;
    unfold handleSave; by destruct (Str.truthy _).
Qed.

Lemma loadTasks_keeps_add s s' :
  loadTasks s = Normal s' →
  addDisabled s' = addDisabled s ∧ timeouts s' = timeouts s ∧
  localStorage s' = localStorage s.
Proof.
  unfold loadTasks. destruct (localStorage s !! "tasks") as [stored|]; [|naive_solver].
  destruct (Str.truthy stored); [|naive_solver].
  destruct (JSON.parse stored) as [v| |]; [|done..].
  destruct (tasks_of_json v); naive_solver.
Qed.

Lemma dispatch_keeps_add_ok e s s' :
  add_ok s → dispatch e s = Some s' → add_ok s'.
Proof.
  intros Hok Hd.
  destruct (row_of e) as [n|] eqn:He.
  - destruct (todoList s !! n) as [row|] eqn:Hrow.
    + rewrite (dispatch_row e n s row He Hrow) in Hd.
      destruct (row_handler e row) as [h|] eqn:Hh; simplify_eq/=.
      destruct (row_handler_keeps_add e row h s Hh) as [Hd Ht].
      unfold add_ok. by rewrite Hd, Ht.
    + destruct e; simplify_eq/=; by rewrite Hrow in Hd.
  - destruct e; simplify_eq/=.
    + done.
    + unfold submit. destruct (Str.truthy _); [|done].
      destruct Hok as [[Hdis Ht]|[Hdis Ht]]; rewrite Hdis; simpl; [|by right].
      right. rewrite Ht. simpl. eauto.
    + unfold addTimeout in *.
      destruct Hok as [[Hdis Ht]|[Hdis [text0 Ht]]]; rewrite Ht in *;
        simplify_eq/=. by left.
    + destruct (initPending s); [|done]. unfold initTimeout in Hd.
      destruct (loadTasks (set_initPending false s)) as [s1| |] eqn:Hl;
        simplify_eq/=; [|done..].
      destruct (loadTasks_keeps_add _ _ Hl) as (Hdis & Ht & _).
      unfold add_ok. simpl. by rewrite Hdis, Ht.
Qed.

Lemma run_keeps_add_ok es s s' : add_ok s → run es s = Some s' → add_ok s'.
Proof.
  revert s. induction es as [|e es IH]; intros s Hok Hrun; simplify_eq/=; [done|].
  destruct (dispatch e s) as [s1|] eqn:Hd; simplify_eq/=.
  eapply IH; [|done]. by eapply dispatch_keeps_add_ok.
Qed.

(** ** The sessions the model follows *)

(** Whether [loadTasks] leaves a value the model has not depends on the
    store alone. *)
Lemma loadTasks_store s1 s2 :
  localStorage s1 = localStorage s2 →
  loadTasks s1 = Unmodelled → loadTasks s2 = Unmodelled.
Proof.
  unfold loadTasks. intros <-.
  destruct (localStorage s1 !! "tasks") as [stored|]; [|done].
  destruct (Str.truthy stored); [|done].
  destruct (JSON.parse stored) as [v| |]; [|done..].
  by destruct (tasks_of_json v).
Qed.

Lemma loadTasks_keeps_unmodelled s s' :
  loadTasks s = Normal s' → unmodelled s' = unmodelled s.
Proof.
  unfold loadTasks. destruct (localStorage s !! "tasks") as [stored|]; [|congruence].
  destruct (Str.truthy stored); [|congruence].
  destruct (JSON.parse stored) as [v| |]; [|done..].
  destruct (tasks_of_json v); [|done]. by intros [= <-].
Qed.

Lemma store_read_saved s : saved s → store_read (localStorage s).
Proof.
  intros Hs. unfold store_read.
  by rewrite (loadTasks_stored (initial (localStorage s)) (tasks s) Hs).
Qed.

(** A handler of a row saves the list or leaves the store alone. *)
Lemma row_handler_store e row h s :
  row_handler e row = Some h →
  unmodelled (h s) = unmodelled s ∧ initPending (h s) = initPending s ∧
  (localStorage (h s) = localStorage s ∨ saved (h s)).
Proof.
  unfold row_handler. intros Hh.
  destruct e, (class_editing row); simplify_eq;
    try (unfold handleSave; destruct (Str.truthy _));
    (split_and!; [done..|]);
    first [by left | right; apply saved_saveTasks].
Qed.

Lemma dispatch_stays_modelled e s s' :
  unmodelled s = false ∧ (initPending s = true → store_read (localStorage s)) →
  dispatch e s = Some s' →
  unmodelled s' = false ∧ (initPending s' = true → store_read (localStorage s')).
Proof.
  intros [Hm Hs] Hd.
  destruct (row_of e) as [n|] eqn:He.
  - destruct (todoList s !! n) as [row|] eqn:Hrow.
    + rewrite (dispatch_row e n s row He Hrow) in Hd.
      destruct (row_handler e row) as [h|] eqn:Hh; simplify_eq/=.
      destruct (row_handler_store e row h s Hh) as (-> & -> & [-> | Hsaved]);
        [done|].
      split; [done|]. intros _. by apply store_read_saved.
    + destruct e; simplify_eq/=; by rewrite Hrow in Hd.
  - destruct e; simplify_eq/=.
    + done.
    + unfold submit. by destruct (_ && _).
    + unfold addTimeout in *. destruct (timeouts s); simplify_eq/=.
      split; [done|]. intros _.
      apply (store_read_saved (renderTasks (saveTasks (set_tasks _ s)))).
      apply saved_saveTasks.
    + destruct (initPending s) eqn:Hpend; [|done]. unfold initTimeout in Hd.
      destruct (loadTasks (set_initPending false s)) as [s1| |] eqn:Hl;
        simplify_eq/=.
      * destruct (loadTasks_keeps _ _ Hl) as [_ Hp].
        rewrite (loadTasks_keeps_unmodelled _ _ Hl). simpl in *.
        split; [done|]. congruence.
      * done.
      * destruct (Hs eq_refl).
        by apply (loadTasks_store (set_initPending false s)).
Qed.

(** The stores of [store_read], one by one. *)
Lemma store_read_iff (m : gmap string string) :
  store_read m ↔
  m !! "tasks" = None ∨ m !! "tasks" = Some "" ∨
  (∃ stored, m !! "tasks" = Some stored ∧ JSON.parse stored = JSON.SyntaxError) ∨
  (∃ stored v l, m !! "tasks" = Some stored ∧ JSON.parse stored = JSON.Ok v ∧
                 tasks_of_json v = Some l).
Proof.
  unfold store_read, loadTasks. cbn [localStorage initial].
  destruct (m !! "tasks") as [stored|]; [|naive_solver].
  destruct stored as [|c r]; [naive_solver|]. cbn [Str.truthy].
  destruct (JSON.parse (String c r)) as [v| |] eqn:Hp.
  - destruct (tasks_of_json v) as [l|] eqn:Hl.
    + split; [|done]. intros _. do 3 right. by exists (String c r), v, l.
    + split; [done|].
      intros [?|[?|[(? & ? & ?)|(? & ? & ? & ? & ? & ?)]]]; simplify_eq;
        congruence.
  - split; [|done]. intros _. right. right. left. by exists (String c r).
  - split; [done|].
    intros [?|[?|[(? & ? & ?)|(? & ? & ? & ? & ? & ?)]]]; simplify_eq;
      congruence.
Qed.

(** Over a store the load callback reads within the model, no sequence of
    events leaves the model. *)
Lemma run_stays_modelled store es s' :
  store_read store → run es (initial store) = Some s' → unmodelled s' = false.
Proof.
  intros Hs Hrun.
  cut (unmodelled s' = false ∧
       (initPending s' = true → store_read (localStorage s'))); [by intros []|].
  assert (unmodelled (initial store) = false ∧
          (initPending (initial store) = true →
           store_read (localStorage (initial store)))) as Hinit by done.
  revert Hinit Hrun. generalize (initial store). clear Hs.
  induction es as [|e es IH]; intros s Hinv Hrun; simplify_eq/=; [done|].
  destruct (dispatch e s) as [s1|] eqn:Hd; simplify_eq/=.
  eapply IH; [|done]. by eapply dispatch_stays_modelled.
Qed.

(** X3. Over a store that holds under [tasks] nothing, the empty string, a
    malformed text or a list of tasks as [saveTasks] writes them (the stores
    of [store_read]), whatever the page receives, [tasks] stays a list of
    tasks, at most one add callback is waiting, and the add button is
    disabled exactly while one is: the form cannot schedule a second add
    before the first has run. *)
Theorem at_most_one_add_pending
    (store : gmap string string) (es : list event) (s' : state) :
  store_read store → run es (initial store) = Some s' →
  unmodelled s' = false ∧
  (length (timeouts s') ≤ 1)%nat ∧ (addDisabled s' = true ↔ timeouts s' ≠ []).
Proof.
  intros Hs Hrun. split; [by eapply run_stays_modelled|].
  assert (add_ok s') as [[Hdis Ht]|[Hdis [text0 Ht]]].
  { eapply run_keeps_add_ok; [|done]. by left. }
  - rewrite Hdis, Ht. simpl. split; [lia|]. split; done.
  - rewrite Hdis, Ht. simpl. split; [lia|]. split; done.
Qed.

Lemma at_most_one_add_pending_witness :
  store_read {["tasks" := "not json"]} ∧
  ∃ s', run [Input "a"; Submit; InitTimeout; Input "b"; Submit; Submit]
            (initial {["tasks" := "not json"]}) = Some s' ∧
        (length (timeouts s') ≤ 1)%nat.
Proof.
  set (es := [Input "a"; Submit; InitTimeout; Input "b"; Submit; Submit]).
  set (store := ({["tasks" := "not json"]} : gmap string string)).
  assert (store_read store) as Hs.
  { intros Hl. vm_compute in Hl. discriminate Hl. }
  assert (run es (initial store)
          = Some (default (initial ∅) (run es (initial store))))
    as Hrun by (vm_compute; reflexivity).
  split; [exact Hs|]. eexists. split; [exact Hrun|].
  exact (proj1 (proj2 (at_most_one_add_pending store es _ Hs Hrun))).
Defined.

(** X4. Submitting the form twice is submitting it once: the second
    submission finds the button disabled (or the field blank) and does
    nothing. *)
Theorem submit_twice (s : state) : submit (submit s) = submit s.
Proof.
  unfold submit at 2 3.
  destruct (Str.truthy (Str.trim (todoInput s)) && negb (addDisabled s)) eqn:Hg;
    [|unfold submit; by rewrite Hg].
  unfold submit. simpl. by rewrite andb_false_r.
Qed.

(** ** The rows *)

Lemma no_editing_row (e : option Z) (l : list Task) :
  (∀ task, task ∈ l → e ≠ Some (id task)) →
  filter (λ row, class_editing row = true) (render_row e <$> l) = [].
Proof.
  induction l as [|t l IH]; intros Hall; [done|].
  rewrite fmap_cons, filter_cons_False.
  - apply IH. intros task Hin. apply Hall. by right.
  - simpl. rewrite bool_decide_false; [done|]. apply Hall. by left.
Qed.

Lemma one_editing_row (e : option Z) (l : list Task) :
  NoDup (id <$> l) →
  (length (filter (λ row, class_editing row = true) (render_row e <$> l)) ≤ 1)%nat.
Proof.
  induction l as [|t l IH]; intros Hnd; [simpl; lia|].
  rewrite fmap_cons in Hnd. apply NoDup_cons in Hnd as [Hnotin Hnd].
  rewrite fmap_cons. destruct (decide (e = Some (id t))) as [->|Hne].
  - rewrite filter_cons_True by (simpl; by rewrite bool_decide_true).
    rewrite no_editing_row; [simpl; lia|].
    intros task Hin [= Heq]. apply Hnotin. rewrite Heq.
    by apply list_elem_of_fmap_2.
  - rewrite filter_cons_False by (simpl; by rewrite bool_decide_false).
    by apply IH.
Qed.

(** X5. [renderTasks] builds one row for each task, in the order of the
    list, with the task's id, text and check mark; the rows of class
    [editing] are those of the tasks whose id the cursor holds: none when the
    cursor is none or on no task, and at most one when the ids of the list
    are distinct. *)
Theorem renderTasks_rows (s : state) :
  length (todoList (renderTasks s)) = length (tasks s) ∧
  (∀ n task, tasks s !! n = Some task →
     ∃ row, todoList (renderTasks s) !! n = Some row ∧
            dataset_id row = id task ∧ li_text row = text task ∧
            class_completed row = completed task ∧
            (class_editing row = true ↔ editingId s = Some (id task))) ∧
  ((∀ task, task ∈ tasks s → editingId s ≠ Some (id task)) →
     filter (λ row, class_editing row = true) (todoList (renderTasks s)) = []) ∧
  (NoDup (id <$> tasks s) →
     (length (filter (λ row, class_editing row = true)
                (todoList (renderTasks s))) ≤ 1)%nat).
Proof.
  simpl. split_and!.
  - apply length_fmap.
  - intros n task Hn. exists (render_row (editingId s) task).
    rewrite list_lookup_fmap, Hn. split_and!; [done..|].
    simpl. apply bool_decide_eq_true.
  - apply no_editing_row.
  - apply one_editing_row.
Qed.

(** X6. Over a store that holds under [tasks] nothing, the empty string, a
    malformed text or a list of tasks as [saveTasks] writes them (the stores
    of [store_read]), after every sequence of events [tasks] is a list of
    tasks and the rows on the page are those of the list and the cursor as
    they now are: no handler leaves the page showing an earlier list. *)
Theorem rows_follow_state
    (store : gmap string string) (es : list event) (s' : state) :
  store_read store → run es (initial store) = Some s' →
  unmodelled s' = false ∧
  todoList s' = render_row (editingId s') <$> tasks s'.
Proof.
  intros Hs Hrun. split; [by eapply run_stays_modelled|].
  by destruct (run_keeps_page_ok es (initial store) s' (page_ok_initial store) Hrun).
Qed.

Lemma rows_follow_state_witness :
  store_read {["tasks" := JSON.stringify (json_of_tasks [mkTask 3 "old" true])]} ∧
  ∃ s', run [InitTimeout; Input "a"; Submit; Timeout 7; EditClick 1]
            (initial {["tasks" :=
                         JSON.stringify (json_of_tasks [mkTask 3 "old" true])]})
        = Some s' ∧
        todoList s' = render_row (editingId s') <$> tasks s'.
Proof.
  set (es := [InitTimeout; Input "a"; Submit; Timeout 7; EditClick 1]).
  set (store := ({["tasks" :=
                     JSON.stringify (json_of_tasks [mkTask 3 "old" true])]}
                 : gmap string string)).
  assert (store_read store) as Hs.
  { intros Hl. vm_compute in Hl. discriminate Hl. }
  assert (run es (initial store)
          = Some (default (initial ∅) (run es (initial store))))
    as Hrun by (vm_compute; reflexivity).
  split; [exact Hs|]. eexists. split; [exact Hrun|].
  exact (proj2 (rows_follow_state store es _ Hs Hrun)).
Defined.

(** ** Composing the operations *)

(** Writing a list over a list just written leaves what writing it at once
    leaves. *)
Lemma commit_twice s l1 l2 :
  renderTasks (saveTasks (set_tasks l2
    (renderTasks (saveTasks (set_tasks l1 s)))))
  = renderTasks (saveTasks (set_tasks l2 s)).
Proof.
  destruct s as [l e m rows v d ts p u].
  unfold renderTasks, saveTasks, set_todoList, set_localStorage, set_tasks.
  cbn [tasks editingId localStorage todoList todoInput addDisabled timeouts
       initPending unmodelled].
  by rewrite insert_insert_eq.
Qed.

Lemma commit_same s :
  rendered s → saved s → renderTasks (saveTasks (set_tasks (tasks s) s)) = s.
Proof.
  destruct s as [l e m rows v d ts p u]. unfold rendered, saved.
  cbn [tasks editingId localStorage todoList]. intros -> Hs.
  unfold renderTasks, saveTasks, set_todoList, set_localStorage, set_tasks.
  cbn [tasks editingId localStorage todoList todoInput addDisabled timeouts
       initPending unmodelled].
  by rewrite (insert_id m "tasks" _ Hs).
Qed.

(** X8. On a page whose rows and store are those of its list, toggling a
    task twice gives back the whole state: list, cursor, store and rows. *)
Theorem toggle_twice_restores_state (s : state) (i : Z) :
  rendered s → saved s → toggleTask i (toggleTask i s) = s.
Proof.
  intros Hr Hs. unfold toggleTask at 1. rewrite tasks_toggleTask.
  unfold toggleTask. rewrite commit_twice, <- list_fmap_compose.
  assert ((flip_task i ∘ flip_task i) <$> tasks s = tasks s) as ->.
  { rewrite <- (list_fmap_id (tasks s)) at 2. apply list_fmap_ext.
    intros _ task _. apply flip_task_twice. }
  by apply commit_same.
Qed.

Lemma toggle_twice_restores_state_witness :
  toggleTask 7 (toggleTask 7 (addTask "a" 7 (initial ∅)))
  = addTask "a" 7 (initial ∅).
Proof.
  apply toggle_twice_restores_state; [reflexivity|].
  apply saved_saveTasks.
Defined.

(** X9. Deleting an id a second time changes nothing more, and two deletes
    give the same state in either order. *)
Theorem deleteTask_composes (s : state) (i j : Z) :
  deleteTask i (deleteTask i s) = deleteTask i s ∧
  deleteTask i (deleteTask j s) = deleteTask j (deleteTask i s).
Proof.
  split.
  - unfold deleteTask at 1. rewrite tasks_deleteTask.
    unfold deleteTask. rewrite commit_twice. do 3 f_equal.
    apply filter_all. intros task Hin.
    by apply list_elem_of_filter in Hin as [? _].
  - unfold deleteTask at 1 3. rewrite !tasks_deleteTask.
    unfold deleteTask. rewrite !commit_twice. do 3 f_equal.
    rewrite !list_filter_filter. apply list_filter_iff. tauto.
Qed.

(** X11. On a page with no edit under way, beginning to edit a task and
    cancelling gives back the whole state, by the functions and by the Edit
    button followed by the Escape key. *)
Theorem begin_then_cancel (s : state) (n : nat) (task : Task) :
  rendered s → editingId s = None → tasks s !! n = Some task →
  cancelEditing (setEditing (id task) s) = s ∧
  run [EditClick n; KeydownEscape n] s = Some s ∧
  run [SpanClick n; CancelClick n] s = Some s.
Proof.
  intros Hr He Hn.
  assert (cancelEditing (setEditing (id task) s) = s) as Hback.
  { destruct s as [l e m rows v d ts p u]. unfold rendered in Hr.
    simpl in *. subst. done. }
  assert (todoList s !! n = Some (mkLi (id task) (completed task) false (text task)))
    as Hrow.
  { rewrite rendered_lookup, Hn, He by done. done. }
  assert (todoList (setEditing (id task) s) !! n
          = Some (mkLi (id task) (completed task) true (text task))) as Hrow'.
  { rewrite rendered_lookup by apply rendered_setEditing. simpl. rewrite Hn.
    simpl. unfold render_row. by rewrite bool_decide_true. }
  assert (∀ e, e = EditClick n ∨ e = SpanClick n →
            dispatch e s = Some (setEditing (id task) s)) as Hbegin.
  { intros e [-> | ->];
      [by rewrite (dispatch_row (EditClick n) n _ _ eq_refl Hrow)
      |by rewrite (dispatch_row (SpanClick n) n _ _ eq_refl Hrow)]. }
  assert (∀ e, e = KeydownEscape n ∨ e = CancelClick n →
            dispatch e (setEditing (id task) s) = Some s) as Hcancel.
  { intros e [-> | ->];
      [rewrite (dispatch_row (KeydownEscape n) n _ _ eq_refl Hrow')
      |rewrite (dispatch_row (CancelClick n) n _ _ eq_refl Hrow')];
      simpl; by rewrite Hback. }
  split_and!; [done|..]; cbn [run].
  - rewrite Hbegin by auto. cbn [mbind option_bind].
    by rewrite Hcancel by auto.
  - rewrite Hbegin by auto. cbn [mbind option_bind].
    by rewrite Hcancel by auto.
Qed.

Lemma begin_then_cancel_witness :
  cancelEditing (setEditing 7 (addTask "a" 7 (initial ∅)))
  = addTask "a" 7 (initial ∅).
Proof.
  exact (proj1 (begin_then_cancel (addTask "a" 7 (initial ∅)) 0
                  (mkTask 7 "a" false) eq_refl eq_refl eq_refl)).
Defined.

(** ** The texts of the tasks *)

Lemma trimStart_head s c r : Str.trimStart s = String c r → Str.is_white c = false.
Proof.
  induction s as [|c0 s IH]; simpl; [done|].
  destruct (Str.is_white c0) eqn:Hc; [done|]. by intros [= <- _].
Qed.

Lemma trimEnd_head c r c' r' : Str.trimEnd (String c r) = String c' r' → c' = c.
Proof.
  simpl. destruct (Str.trimEnd r); [destruct (Str.is_white c)|]; congruence.
Qed.

(** What [trim] leaves, if anything, is not blank. *)
Lemma trim_not_blank v :
  Str.truthy (Str.trim v) = true → Str.blank (Str.trim v) = false.
Proof.
  unfold Str.trim. destruct (Str.trimStart v) as [|c r] eqn:Hs; [done|].
  destruct (Str.trimEnd (String c r)) as [|c' r'] eqn:He; [done|]. intros _.
  apply trimEnd_head in He as ->. simpl.
  by rewrite (trimStart_head _ _ _ Hs).
Qed.

Lemma texts_kept_commit s l :
  texts_kept s → texts_ok l →
  texts_kept (renderTasks (saveTasks (set_tasks l s))).
Proof.
  intros (_ & Ht & _) Hl. split_and!; [done..|].
  right. exists l. split; [|done]. simpl. by rewrite lookup_insert_eq.
Qed.

Lemma texts_ok_flip i l : texts_ok l → texts_ok (flip_task i <$> l).
Proof.
  intros Hl task (task0 & -> & Hin)%list_elem_of_fmap.
  destruct (flip_task_spec i task0) as (_ & -> & _). by apply Hl.
Qed.

Lemma texts_ok_retext i newText l :
  Str.blank newText = false → texts_ok l → texts_ok (retext_task i newText <$> l).
Proof.
  intros Hn Hl task (task0 & -> & Hin)%list_elem_of_fmap.
  unfold retext_task. case_bool_decide; [done|]. by apply Hl.
Qed.

Lemma texts_ok_filter (P : Task → Prop) `{!∀ x, Decision (P x)} l :
  texts_ok l → texts_ok (filter P l).
Proof. intros Hl task [_ Hin]%list_elem_of_filter. by apply Hl. Qed.

Lemma texts_ok_snoc l task :
  texts_ok l → Str.blank (text task) = false → texts_ok (l ++ [task]).
Proof.
  intros Hl Ht task' [Hin| ->%list_elem_of_singleton]%elem_of_app; [|done].
  by apply Hl.
Qed.

Lemma row_handler_keeps_texts e row h s :
  row_handler e row = Some h → texts_kept s → texts_kept (h s).
Proof.
  unfold row_handler. intros Hh Hk. pose proof Hk as (Hl & _ & _).
  destruct e, (class_editing row); simplify_eq; try done.
  - by apply texts_kept_commit, texts_ok_flip.
  - by apply texts_kept_commit, texts_ok_flip.
  - by apply texts_kept_commit, texts_ok_filter.
  - unfold handleSave. destruct (Str.truthy _) eqn:Ht; [|done].
    destruct Hk as (? & ? & ?).
    apply (texts_kept_commit (set_editingId None s)); [done|].
    apply texts_ok_retext; [by apply trim_not_blank|done].
  - unfold handleSave. destruct (Str.truthy _) eqn:Ht; [|done].
    destruct Hk as (? & ? & ?).
    apply (texts_kept_commit (set_editingId None s)); [done|].
    apply texts_ok_retext; [by apply trim_not_blank|done].
Qed.

Lemma dispatch_keeps_texts e s s' :
  texts_kept s → dispatch e s = Some s' → texts_kept s'.
Proof.
  intros Hk Hd. pose proof Hk as (Hl & Ht & Hs).
  destruct (row_of e) as [n|] eqn:He.
  - destruct (todoList s !! n) as [row|] eqn:Hrow.
    + rewrite (dispatch_row e n s row He Hrow) in Hd.
      destruct (row_handler e row) as [h|] eqn:Hh; simplify_eq/=.
      by eapply row_handler_keeps_texts.
    + destruct e; simplify_eq/=; by rewrite Hrow in Hd.
  - destruct e; simplify_eq/=.
    + done.
    + unfold submit. destruct (Str.truthy _) eqn:Htr; [|done].
      destruct (addDisabled s); [done|]. split_and!; [done| |done].
      simpl. intros t [Hin| ->%list_elem_of_singleton]%elem_of_app; [by apply Ht|].
      by apply trim_not_blank.
    + unfold addTimeout in *. destruct (timeouts s) as [|t pending] eqn:Hts;
        simplify_eq/=.
      assert (texts_kept (addTask t now s)) as (Hl' & _ & Hs').
      { apply texts_kept_commit; [done|]. apply texts_ok_snoc; [done|].
        apply Ht. rewrite ?Hts. by left. }
      split_and!; [done| |done].
      simpl. intros t' Hin. apply Ht. rewrite ?Hts. by right.
    + destruct (initPending s); [|done]. unfold initTimeout in Hd.
      destruct Hs as [Hnone|(l & Hsome & Hl')].
      * unfold loadTasks in Hd. simpl in Hd. rewrite Hnone in Hd.
        simplify_eq/=. split_and!; [done..|]. by left.
      * rewrite (loadTasks_stored (set_initPending false s) l Hsome) in Hd.
        injection Hd as <-. split_and!; [done..|]. right. by exists l.
Qed.

Lemma run_keeps_texts es s s' : texts_kept s → run es s = Some s' → texts_kept s'.
Proof.
  revert s. induction es as [|e es IH]; intros s Hok Hrun; simplify_eq/=; [done|].
  destruct (dispatch e s) as [s1|] eqn:Hd; simplify_eq/=.
  eapply IH; [|done]. by eapply dispatch_keeps_texts.
Qed.

(** X7. On a store that holds nothing under [tasks], or a list this page
    saved without a blank text, no event sequence ever puts a task with an
    empty or white text in the list, nor in the store. *)
Theorem texts_never_blank
    (store : gmap string string) (es : list event) (s' : state) :
  store_ok store → run es (initial store) = Some s' →
  texts_ok (tasks s') ∧ store_ok (localStorage s').
Proof.
  intros Hs Hrun.
  assert (texts_kept s') as (? & _ & ?); [|by split].
  eapply run_keeps_texts; [|done].
  split_and!; [by intros ? ?%elem_of_nil..|done].
Qed.

Lemma texts_never_blank_witness :
  ∃ s', run [Input " a "; Submit; Timeout 7; EditClick 0;
             KeydownEnter 0 " b "; InitTimeout] (initial ∅) = Some s' ∧
        texts_ok (tasks s').
Proof.
  set (es := [Input " a "; Submit; Timeout 7; EditClick 0;
              KeydownEnter 0 " b "; InitTimeout]).
  assert (run es (initial ∅) = Some (default (initial ∅) (run es (initial ∅))))
    as Hrun by (vm_compute; reflexivity).
  eexists. split; [exact Hrun|].
  exact (proj1 (texts_never_blank ∅ es _ (or_introl (lookup_empty _)) Hrun)).
Defined.

(** ** Adds in a row *)

Lemma apply_all_cons o os s : apply_all (o :: os) s = apply_all os (apply o s).
Proof. done. Qed.

(** X10. Adds of texts that are not blank, one after the other on a page
    with no add under way, append their tasks in that order, each with the
    trimmed text, not completed, and the reading of the clock for id. *)
Theorem adds_append_in_order (s : state) (items : list (string * Z)) :
  addDisabled s = false → timeouts s = [] →
  Forall (λ item, Str.blank item.1 = false) items →
  tasks (apply_all (adds items) s)
  = tasks s ++ ((λ item, mkTask item.2 (Str.trim item.1) false) <$> items).
Proof.
  intros Hd Ht Hitems. revert s Hd Ht.
  induction Hitems as [|[value now] items Hb _ IH]; intros s Hd Ht.
  - simpl. by rewrite app_nil_r.
  - unfold adds. rewrite fmap_cons, apply_all_cons. fold (adds items).
    cbn [apply fst snd]. rewrite IH; [|by rewrite add_text..].
    rewrite add_text by done. cbn [fst snd]. simpl tasks.
    by rewrite <- (assoc_L (++)).
Qed.

Lemma adds_append_in_order_witness :
  tasks (apply_all (adds [(" A", 1000); ("B ", 2000)]) (initial ∅))
  = [mkTask 1000 "A" false; mkTask 2000 "B" false].
Proof.
  apply (adds_append_in_order (initial ∅) [(" A", 1000); ("B ", 2000)]
           eq_refl eq_refl).
  repeat constructor.
Defined.

(** ** An add before the load *)

(** X12. When a task is added before the callback of [initializeApp] has
    run, [addTask] saves a list of that task alone over whatever the store
    held, and the callback then loads that list: the page and the store end
    with the new task only. *)
Theorem add_before_load_replaces_store
    (store : gmap string string) (value : string) (now : Z) :
  Str.blank value = false →
  ∃ s', run [Input value; Submit; Timeout now; InitTimeout] (initial store)
        = Some s' ∧
        tasks s' = [mkTask now (Str.trim value) false] ∧
        reloaded s' = Some [mkTask now (Str.trim value) false].
Proof.
  intros Hb.
  set (s3 := add value now (initial store)).
  assert (run [Input value; Submit; Timeout now] (initial store) = Some s3)
    as Hrun3.
  { unfold s3, add. cbn [run dispatch mbind option_bind].
    unfold submit. cbn [todoInput set_todoInput addDisabled initial].
    rewrite truthy_trim, Hb. done. }
  assert (tasks s3 = [mkTask now (Str.trim value) false]) as Ht.
  { unfold s3. by rewrite add_text. }
  assert (saved s3) as Hs.
  { unfold s3, saved. rewrite add_text by done. simpl.
    by rewrite lookup_insert_eq. }
  assert (initPending s3 = true) as Hp.
  { unfold s3. by rewrite add_text. }
  exists (renderTasks (set_tasks (tasks s3) (set_initPending false s3))).
  split_and!.
  - change [Input value; Submit; Timeout now; InitTimeout]
      with ([Input value; Submit; Timeout now] ++ [InitTimeout]).
    rewrite run_app, Hrun3. cbn [mbind option_bind run dispatch].
    rewrite Hp. unfold initTimeout.
    by rewrite (loadTasks_stored (set_initPending false s3) (tasks s3) Hs).
  - done.
  - rewrite <- Ht. by apply (reloaded_saved (renderTasks (set_tasks (tasks s3)
                                  (set_initPending false s3)))).
Qed.

Lemma add_before_load_replaces_store_witness :
  ∃ s', run [Input "new"; Submit; Timeout 9; InitTimeout]
          (initial {["tasks" := JSON.stringify
                       (json_of_tasks [mkTask 1 "old" true])]}) = Some s' ∧
        tasks s' = [mkTask 9 "new" false].
Proof.
  destruct (add_before_load_replaces_store
              {["tasks" := JSON.stringify (json_of_tasks [mkTask 1 "old" true])]}
              "new" 9 eq_refl) as (s' & Hrun & Ht & _).
  by exists s'.
Defined.

(** * The image form *)

Lemma split_colon_free s : Image.colon_free s → Image.split_colon s = [s].
Proof.
  unfold Image.colon_free. induction s as [|c s IH]; [done|].
  simpl. intros [Hc Hs]%Forall_cons. rewrite bool_decide_false by done.
  by rewrite IH.
Qed.

Lemma split_colon_pair w h :
  Image.colon_free w → Image.colon_free h →
  Image.split_colon (w +:+ ":" +:+ h) = [w; h].
Proof.
  unfold Image.colon_free at 1. intros Hw Hh.
  induction w as [|c w IH].
  - rewrite sapp_nil_l, sapp_cons, sapp_nil_l. simpl.
    by rewrite split_colon_free.
  - simpl in Hw. apply Forall_cons in Hw as [Hc Hw].
    rewrite sapp_cons. simpl. rewrite bool_decide_false by done.
    by rewrite IH.
Qed.

(** X13. With the radio button of a ratio [w:h] checked,
    [updateResultContainerStyle] sets the aspect ratio [w / h], and the
    largest width 100% for 16:9, 300px for 9:16 and 512px for every other
    ratio. *)
Theorem ratio_sets_style (p : Image.page) (w h : string) :
  Image.colon_free w → Image.colon_free h →
  Image.checkedRatio p = Some (w +:+ ":" +:+ h) →
  Image.aspectRatio (Image.updateResultContainerStyle p) = w +:+ " / " +:+ h ∧
  (Image.maxWidth (Image.updateResultContainerStyle p) = "100%"
     ↔ w = "16" ∧ h = "9") ∧
  (Image.maxWidth (Image.updateResultContainerStyle p) = "300px"
     ↔ w = "9" ∧ h = "16") ∧
  (Image.maxWidth (Image.updateResultContainerStyle p) = "512px"
     ↔ ¬ (w = "16" ∧ h = "9") ∧ ¬ (w = "9" ∧ h = "16")).
Proof.
  intros Hw Hh Hr. unfold Image.updateResultContainerStyle. rewrite Hr.
  assert (Str.truthy (w +:+ ":" +:+ h) = true) as ->.
  { destruct w; by rewrite ?sapp_nil_l, sapp_cons. }
  rewrite split_colon_pair by done. cbn [Image.set_style Image.aspectRatio
    Image.maxWidth Image.part lookup list_lookup default from_option].
  split; [done|].
  assert (∀ w' h', Image.colon_free w' →
            w +:+ ":" +:+ h = w' +:+ ":" +:+ h' ↔ w = w' ∧ h = h') as Heq.
  { intros w' h' Hw'. split; [|by intros [-> ->]]. intros Happ.
    assert (Image.split_colon (w +:+ ":" +:+ h) = [w; h]) as Hs
      by by apply split_colon_pair.
    clear Hr. revert w Hw Happ Hs. induction w' as [|c' w' IH]; intros w Hw Happ Hs.
    - destruct w as [|c w]; [by simplify_eq/=|].
      rewrite sapp_nil_l, !sapp_cons, !sapp_nil_l in Happ.
      apply Forall_cons in Hw as [Hc _]. congruence.
    - destruct w as [|c w].
      + rewrite sapp_nil_l, !sapp_cons, !sapp_nil_l in Happ.
        apply Forall_cons in Hw' as [Hc _]. congruence.
      + rewrite !sapp_cons in Happ. injection Happ as -> Happ.
        apply Forall_cons in Hw as [_ Hw], Hw' as [_ Hw'].
        destruct (IH Hw' w Hw Happ) as [-> ->]; [by apply split_colon_pair|done]. }
  change "16:9" with ("16" +:+ ":" +:+ "9").
  change "9:16" with ("9" +:+ ":" +:+ "16").
  pose proof (Heq "16" "9" ltac:(repeat constructor; done)) as H169.
  pose proof (Heq "9" "16" ltac:(repeat constructor; done)) as H916.
  rewrite (bool_decide_ext _ _ H169), (bool_decide_ext _ _ H916).
  destruct (decide (w = "16" ∧ h = "9")) as [[-> ->]|HA].
  { rewrite bool_decide_true by done. clear; intuition congruence. }
  rewrite bool_decide_false by done.
  destruct (decide (w = "9" ∧ h = "16")) as [[-> ->]|HB].
  { rewrite bool_decide_true by done. clear; intuition congruence. }
  rewrite bool_decide_false by done. clear -HA HB. intuition congruence.
Qed.

Lemma ratio_sets_style_witness :
  Image.aspectRatio
    (Image.updateResultContainerStyle
       (Image.mkPage true "" (Some "16:9") "" false "Generate" [] "" "" []))
  = "16 / 9".
Proof.
  refine (proj1 (ratio_sets_style
                   (Image.mkPage true "" (Some "16:9") "" false "Generate" []
                      "" "" [])
                   "16" "9" _ _ eq_refl));
    repeat constructor; done.
Defined.

(** ** Calls *)

Lemma generateImage_guard p :
  Str.truthy (Image.promptInput p) = false ∨ Image.ai p = false →
  Image.generateImage p = p.
Proof.
  unfold Image.generateImage. intros [-> | ->]; [done|].
  by rewrite orb_true_r.
Qed.

Lemma image_run_cons e es p :
  Image.run (e :: es) p = Image.dispatch e p ≫= Image.run es.
Proof. done. Qed.

(** [updateResultContainerStyle] touches the style only. *)
Lemma updateResultContainerStyle_keeps p :
  Image.ai (Image.updateResultContainerStyle p) = Image.ai p ∧
  Image.requests (Image.updateResultContainerStyle p) = Image.requests p ∧
  Image.imageContainer (Image.updateResultContainerStyle p)
  = Image.imageContainer p ∧
  Image.disabled (Image.updateResultContainerStyle p) = Image.disabled p.
Proof.
  unfold Image.updateResultContainerStyle.
  destruct (Image.checkedRatio p) as [r|]; [|done].
  by destruct (Str.truthy r).
Qed.

Lemma dispatch_without_client e p p1 :
  Image.ai p = false → Image.requests p = [] →
  Image.dispatch e p = Some p1 →
  Image.ai p1 = false ∧ Image.requests p1 = [] ∧
  Image.imageContainer p1 = Image.imageContainer p.
Proof.
  intros Hai Hr Hd. destruct e; simpl in Hd.
  - injection Hd as <-.
    destruct (updateResultContainerStyle_keeps p) as (-> & -> & -> & _). done.
  - by injection Hd as <-.
  - injection Hd as <-.
    destruct (updateResultContainerStyle_keeps
                (Image.set_checkedRatio (Some value) p)) as (-> & -> & -> & _).
    done.
  - destruct (Image.disabled p); [done|]. injection Hd as <-.
    by rewrite (generateImage_guard p (or_intror Hai)).
  - injection Hd as <-. by rewrite (generateImage_guard p (or_intror Hai)).
  - by rewrite Hr in Hd.
Qed.

(** X14. When the client could not be built, the script shows the
    configuration error and, whatever the page then receives, makes no call
    and leaves that message alone in the container. *)
Theorem no_client_no_call
    (p0 : Image.page) (es : list Image.event) (p' : Image.page) :
  Image.requests p0 = [] →
  Image.run es (Image.startup false p0) = Some p' →
  Image.ai p' = false ∧ Image.requests p' = [] ∧
  Image.imageContainer p'
  = [Image.ErrorP "Failed to initialize AI. Please check API key configuration."].
Proof.
  intros Hreq.
  assert (∀ p, Image.ai p = false → Image.requests p = [] →
            Image.run es p = Some p' →
            Image.ai p' = false ∧ Image.requests p' = [] ∧
            Image.imageContainer p' = Image.imageContainer p) as Hinv.
  { induction es as [|e es IH]; intros p Hai Hr Hrun; [by simplify_eq/=|].
    rewrite image_run_cons in Hrun.
    destruct (Image.dispatch e p) as [p1|] eqn:Hd; [|done].
    destruct (dispatch_without_client e p p1 Hai Hr Hd) as (Hai1 & Hr1 & <-).
    by apply IH. }
  intros Hrun. by apply (Hinv (Image.startup false p0)).
Qed.

Lemma no_client_no_call_witness :
  ∃ p', Image.run [Image.PromptInput "a cat"; Image.GenerateClick;
                   Image.PromptEnter]
          (Image.startup false
             (Image.mkPage false "" (Some "1:1") "" false "Generate" [] "" "" []))
        = Some p' ∧
        Image.requests p' = [].
Proof.
  set (p0 := Image.mkPage false "" (Some "1:1") "" false "Generate" [] "" "" []).
  set (es := [Image.PromptInput "a cat"; Image.GenerateClick; Image.PromptEnter]).
  assert (Image.run es (Image.startup false p0)
          = Some (default p0 (Image.run es (Image.startup false p0))))
    as Hrun by (vm_compute; reflexivity).
  eexists. split; [exact Hrun|].
  exact (proj1 (proj2 (no_client_no_call p0 es _ eq_refl Hrun))).
Defined.

(** What a click-only page keeps: see [Image.one_call]. *)
Lemma dispatch_keeps_one_call e p p1 :
  e ≠ Image.PromptEnter → Image.one_call p →
  Image.dispatch e p = Some p1 → Image.one_call p1.
Proof.
  intros He Hok Hd. destruct e; simpl in Hd; [..|done|].
  - injection Hd as <-. unfold Image.one_call.
    by destruct (updateResultContainerStyle_keeps p) as (_ & -> & _ & ->).
  - by injection Hd as <-.
  - injection Hd as <-. unfold Image.one_call.
    by destruct (updateResultContainerStyle_keeps
                   (Image.set_checkedRatio (Some value) p))
      as (_ & -> & _ & ->).
  - destruct Hok as [[Hdis Hr]|[Hdis _]]; rewrite Hdis in Hd; [|done].
    injection Hd as <-. unfold Image.generateImage.
    destruct (negb _ || negb _); [by left|].
    right. simpl. rewrite Hr. eauto.
  - destruct Hok as [[_ Hr]|[_ [r Hr]]]; rewrite Hr in Hd.
    + done.
    + destruct k; [|done]. injection Hd as <-. left. by destruct outcome.
Qed.

(** X15. On a page that receives no Enter key in the prompt field (clicks on
    the button, typing, ratio changes and results), at most one call is ever
    outstanding, and the button is disabled exactly while one is. *)
Theorem clicks_make_one_call_at_a_time
    (p : Image.page) (es : list Image.event) (p' : Image.page) :
  Image.disabled p = false → Image.requests p = [] →
  Forall (λ e, e ≠ Image.PromptEnter) es →
  Image.run es p = Some p' →
  (length (Image.requests p') ≤ 1)%nat ∧
  (Image.disabled p' = true ↔ Image.requests p' ≠ []).
Proof.
  intros Hdis Hr Hes Hrun.
  assert (Image.one_call p') as [[Hd' Hr']|[Hd' [r Hr']]].
  { assert (Image.one_call p) as Hok by by left.
    clear Hdis Hr. revert p Hok Hrun.
    induction Hes as [|e es He _ IH]; intros p Hok Hrun; [by simplify_eq/=|].
    rewrite image_run_cons in Hrun.
    destruct (Image.dispatch e p) as [p1|] eqn:Hd; [|done].
    apply (IH p1); [|done]. by eapply dispatch_keeps_one_call. }
  - rewrite Hd', Hr'. simpl. split; [lia|]. by split.
  - rewrite Hd', Hr'. simpl. split; [lia|]. by split.
Qed.

Lemma clicks_make_one_call_at_a_time_witness :
  ∃ p', Image.run [Image.PromptInput "a cat"; Image.GenerateClick;
                   Image.Settle 0 None; Image.GenerateClick]
          (Image.mkPage true "" None "" false "Generate" [] "" "" []) = Some p' ∧
        (length (Image.requests p') ≤ 1)%nat.
Proof.
  set (p := Image.mkPage true "" None "" false "Generate" [] "" "" []).
  set (es := [Image.PromptInput "a cat"; Image.GenerateClick;
              Image.Settle 0 None; Image.GenerateClick]).
  assert (Image.run es p = Some (default p (Image.run es p)))
    as Hrun by (vm_compute; reflexivity).
  eexists. split; [exact Hrun|].
  refine (proj1 (clicks_make_one_call_at_a_time p es _ eq_refl eq_refl _ Hrun)).
  repeat constructor; done.
Defined.

(** X16. A click on Generate with a prompt, a client and no call
    outstanding, followed by the result of its call, leaves the button
    enabled under its first label, the loader hidden, and in the container
    one node only: the image, with the prompt for [alt], when the call
    answered with one, the error message when it did not. *)
Theorem generate_then_result (p : Image.page) (outcome : option string) :
  Str.truthy (Image.promptInput p) = true → Image.ai p = true →
  Image.disabled p = false → Image.requests p = [] →
  ∃ p', Image.run [Image.GenerateClick; Image.Settle 0 outcome] p = Some p' ∧
        Image.imageContainer p'
        = [match outcome with
           | Some bytes =>
               Image.Img ("data:image/jpeg;base64," +:+ bytes) (Image.promptInput p)
           | None =>
               Image.ErrorP "An error occurred while generating the image."
           end] ∧
        Image.disabled p' = false ∧ Image.buttonText p' = "Generate" ∧
        Image.loaderDisplay p' = "none" ∧ Image.requests p' = [].
Proof.
  intros Hp Hai Hdis Hr. eexists. split.
  - cbn [Image.run Image.dispatch]. rewrite Hdis. cbn [mbind option_bind].
    unfold Image.generateImage. rewrite Hp, Hai. cbn [negb orb].
    cbn [Image.requests Image.set_requests Image.set_imageContainer
         Image.setLoading]. rewrite Hr. cbn [app lookup list_lookup].
    cbn [mbind option_bind]. reflexivity.
  - by destruct outcome.
Qed.

Lemma generate_then_result_witness :
  ∃ p', Image.run [Image.GenerateClick; Image.Settle 0 (Some "AAAA")]
          (Image.mkPage true "a cat" None "" false "Generate" [] "" "" [])
        = Some p' ∧
        Image.imageContainer p'
        = [Image.Img "data:image/jpeg;base64,AAAA" "a cat"].
Proof.
  destruct (generate_then_result
              (Image.mkPage true "a cat" None "" false "Generate" [] "" "" [])
              (Some "AAAA") eq_refl eq_refl eq_refl eq_refl)
    as (p' & Hrun & Hc & _).
  exists p'. split; [exact Hrun|exact Hc].
Defined.

(** X17. The Enter key is not held back by the disabled button: pressed
    twice with a prompt and a client, it makes two calls; when the first
    answers, the button is enabled and the loader hidden while the second is
    still outstanding; and when both have answered with an image, the
    container holds both images. *)
Theorem enter_makes_overlapping_calls (p : Image.page) (a b : string) :
  Str.truthy (Image.promptInput p) = true → Image.ai p = true →
  Image.requests p = [] →
  (∃ p1, Image.run [Image.PromptEnter; Image.PromptEnter;
                    Image.Settle 0 (Some a)] p = Some p1 ∧
         length (Image.requests p1) = 1%nat ∧ Image.disabled p1 = false ∧
         Image.loaderDisplay p1 = "none") ∧
  (∃ p2, Image.run [Image.PromptEnter; Image.PromptEnter;
                    Image.Settle 0 (Some a); Image.Settle 0 (Some b)] p = Some p2 ∧
         Image.imageContainer p2
         = [Image.Img ("data:image/jpeg;base64," +:+ a) (Image.promptInput p);
            Image.Img ("data:image/jpeg;base64," +:+ b) (Image.promptInput p)]).
Proof.
  intros Hp Hai Hr. destruct p as [c v cr ld dis bt ic ar mw reqs].
  simpl in Hp, Hai, Hr. subst c reqs.
  assert (∀ cr' ld' dis' bt' ic' ar' mw' reqs',
    Image.generateImage (Image.mkPage true v cr' ld' dis' bt' ic' ar' mw' reqs')
    = Image.mkPage true v cr' "block" true "Generating..." [] ar' mw'
        (reqs' ++ [Image.mkRequest v
                     (Image.selectedAspectRatio
                        (Image.mkPage true v cr' "block" true "Generating..."
                           [] ar' mw' reqs'))])) as Hgen.
  { intros. unfold Image.generateImage. simpl. by rewrite Hp. }
  split; eexists;
    (split;
     [cbn [Image.run Image.dispatch mbind option_bind]; rewrite !Hgen;
      reflexivity
     |split_and?; reflexivity]).
Qed.

Lemma enter_makes_overlapping_calls_witness :
  ∃ p1, Image.run [Image.PromptEnter; Image.PromptEnter;
                   Image.Settle 0 (Some "AAAA")]
          (Image.mkPage true "a cat" None "" false "Generate" [] "" "" [])
        = Some p1 ∧
        length (Image.requests p1) = 1%nat ∧ Image.disabled p1 = false.
Proof.
  destruct (proj1 (enter_makes_overlapping_calls
              (Image.mkPage true "a cat" None "" false "Generate" [] "" "" [])
              "AAAA" "BBBB" eq_refl eq_refl eq_refl))
    as (p1 & Hrun & Hlen & Hdis & _).
  by exists p1.
Defined.
